(** * Classical Deutsch-Jozsa black-box classifier

    A shallow embedding of [Blackbox-Simulator-Classifier.py] and the
    properties of its oracle model, classifier, trial harness and scaling
    driver.

    Python integers are modelled as [Z].  Exceptions are an explicit result
    type.  The two random generators the script draws from ([random] and
    [numpy.random]) are an abstract interface whose only assumed laws are the
    library contracts: a shuffle returns a permutation of its argument and a
    draw below [k] lies in [0, k).  Everything observable a run does besides
    returning (oracle constructions, oracle queries, the warning print and
    the calls into the plotting library) is recorded in an event trace.

    Resource limits of a real interpreter (memory for a list of [2^n]
    entries, float overflow of [2**n / 2] for [n > 1024]) are not modelled:
    lists and integers are unbounded.  Where a property asserts that a
    construction succeeds for a range of bit lengths, the range is stated
    as a hypothesis ([representable]). *)

From Stdlib Require Import ZArith List Lia Permutation String QArith Bool.
Import ListNotations.
Open Scope Z_scope.

(** ** Python runtime *)

Inductive exn : Type :=
| IndexError
| TypeError
| AttributeError
| UnboundLocalError
| OverflowError.

Inductive result (A : Type) : Type :=
| Ok (a : A)
| Raise (e : exn).
Arguments Ok {A} a.
Arguments Raise {A} e.

(** [range(k)]: the integers [0 .. k-1], empty when [k <= 0]. *)
Definition range (k : Z) : list Z := map Z.of_nat (seq 0 (Z.to_nat k)).

Definition len {A : Type} (l : list A) : Z := Z.of_nat (List.length l).

(** [l[i]] on a Python list: a negative index counts from the end,
    anything outside [-len, len) raises [IndexError]. *)
Definition getitem {A : Type} (l : list A) (i : Z) : result A :=
  let j := if i <? 0 then i + len l else i in
  if (0 <=? j) && (j <? len l) then
    match nth_error l (Z.to_nat j) with
    | Some a => Ok a
    | None => Raise IndexError
    end
  else Raise IndexError.

(** [a[i]] on a one-dimensional numpy array, on a 64-bit platform.  It
    differs from a list in one place: an integer index in [2^63, 2^64) does
    not fit numpy's signed index type and raises [OverflowError] rather
    than [IndexError].  An array holds fewer than [2^63] entries, so such
    an index is never inside it. *)
Definition np_getitem {A : Type} (a : list A) (i : Z) : result A :=
  match getitem a i with
  | Ok x => Ok x
  | Raise e =>
      if (2 ^ 63 <=? i) && (i <? 2 ^ 64) then Raise OverflowError
      else Raise e
  end.

(** A numpy float: [np.mean] of an empty list is [nan]; otherwise the value
    is kept as the exact quotient that the float64 result rounds. *)
Inductive npfloat : Type :=
| NaN
| Real (q : Q).

Definition sum (l : list Z) : Z := fold_right Z.add 0 l.

Definition np_mean (l : list Z) : npfloat :=
  match l with
  | [] => NaN
  | _ :: _ => Real (sum l # Z.to_pos (len l))
  end.

(** ** Randomness and observable events *)

Class RandomSource (G : Type) : Type := {
  (** the list [random.shuffle] leaves behind *)
  shuffle_draw : list Z -> G -> list Z * G;
  shuffle_draw_perm : forall l g, Permutation l (fst (shuffle_draw l g));
  (** [random]'s draw of an index below [k], as used by [random.choice] *)
  below_draw : Z -> G -> Z * G;
  below_draw_range : forall k g, 0 < k -> 0 <= fst (below_draw k g) < k;
  (** [numpy.random]'s draw of an index below [k], as used by
      [np.random.choice] *)
  np_below_draw : Z -> G -> Z * G;
  np_below_draw_range : forall k g, 0 < k -> 0 <= fst (np_below_draw k g) < k
}.

Inductive event : Type :=
| Construct (black_box_type black_box_bit_string_length : Z)
| Query (bit_string_input : Z)
| Print (s : string)
| Plot (xs : list Z) (ys : list npfloat)
| Title (s : string)
| Xlabel (s : string)
| TightLayout
| Show.

Record world (G : Type) : Type := mkWorld {
  rng : G;
  trace : list event
}.
Arguments mkWorld {G} rng trace.
Arguments rng {G} w.
Arguments trace {G} w.

(** ** The monad of the script: state (generator and trace) and exceptions *)

Definition M (G A : Type) : Type := world G -> result A * world G.

Definition ret {G A : Type} (a : A) : M G A := fun w => (Ok a, w).

Definition raise {G A : Type} (e : exn) : M G A := fun w => (Raise e, w).

Definition bind {G A B : Type} (m : M G A) (k : A -> M G B) : M G B :=
  fun w =>
    match m w with
    | (Ok a, w') => k a w'
    | (Raise e, w') => (Raise e, w')
    end.

Notation "x <- m ;; k" := (bind m (fun x => k))
  (at level 61, m at next level, right associativity).
Notation "' p <- m ;; k" := (bind m (fun x => match x with p => k end))
  (at level 61, p pattern, m at next level, right associativity).
Notation "m ;;; k" := (bind m (fun _ => k))
  (at level 61, right associativity).

Definition lift {G A : Type} (r : result A) : M G A := fun w => (r, w).

Definition emit {G : Type} (e : event) : M G unit :=
  fun w => (Ok tt, mkWorld (rng w) (trace w ++ [e])).

Definition draw {G A : Type} (d : G -> A * G) : M G A :=
  fun w => let '(a, g) := d (rng w) in (Ok a, mkWorld g (trace w)).

Section Random.
Context {G : Type} `{RandomSource G}.

(** [random.shuffle(l)], returning the shuffled list. *)
Definition random_shuffle (l : list Z) : M G (list Z) :=
  draw (shuffle_draw l).

(** [random.choice(l)] *)
Definition random_choice {A : Type} (l : list A) : M G A :=
  match l with
  | [] => raise IndexError
  | _ :: _ => i <- draw (below_draw (len l)) ;; lift (getitem l i)
  end.

(** [np.random.choice(l)] on a non-empty list of integers *)
Definition np_random_choice (l : list Z) : M G Z :=
  i <- draw (np_below_draw (len l)) ;; lift (getitem l i).
End Random.

(** ** The oracle: class [general_black_box] *)

Module general_black_box.

(** The object's attributes.  [output] exists only on a constant box and
    [output_array] only on a balanced one. *)
Record t : Type := mk {
  type : Z;
  input_bitstring_length : Z;
  output : option Z;
  output_array : option (list Z)
}.

Section Init.
Context {G : Type} `{RandomSource G}.

Definition __init__ (black_box_type black_box_bit_string_length : Z)
  : M G t :=
  emit (Construct black_box_type black_box_bit_string_length) ;;;
  if black_box_type =? 0 then
    o <- np_random_choice [0; 1] ;;
    ret (mk black_box_type black_box_bit_string_length (Some o) None)
  else
    (* [int(2 ** n)]; for a negative [n] both sides are [0] *)
    let number_of_possible_bitsrtings := 2 ^ black_box_bit_string_length in
    let temp_zero_array :=
      repeat 0 (Z.to_nat (number_of_possible_bitsrtings / 2)) in
    let temp_ones_array :=
      repeat 1 (Z.to_nat (number_of_possible_bitsrtings / 2)) in
    black_box_output_array <-
      random_shuffle (temp_zero_array ++ temp_ones_array) ;;
    ret (mk black_box_type black_box_bit_string_length None
           (Some black_box_output_array)).
End Init.

Definition input_output_operation (self : t) (bit_string_input : Z)
  : result Z :=
  if type self =? 0 then
    match output self with
    | Some o => Ok o
    | None => Raise AttributeError
    end
  else
    match output_array self with
    | Some a => np_getitem a bit_string_input
    | None => Raise AttributeError
    end.

End general_black_box.

(** ** The classifier *)

Record loop_state : Type := mkLoop {
  black_box_type : Z;
  black_box_output_1 : Z;
  counter : option Z     (* unbound until the loop body first runs *)
}.

Section Classifier.
Context {G : Type} `{RandomSource G}.

(** A call of the oracle's query method, recorded in the trace. *)
Definition query (bb : general_black_box.t) (bit_string_input : Z) : M G Z :=
  emit (Query bit_string_input) ;;;
  lift (general_black_box.input_output_operation bb bit_string_input).

(** The [for counter in range(...)] loop with its [break]. *)
Fixpoint for_counter (bb : general_black_box.t) (black_box_input_list : list Z)
    (counters : list Z) (st : loop_state) : M G loop_state :=
  match counters with
  | [] => ret st
  | c :: rest =>
      x <- lift (getitem black_box_input_list (c + 1)) ;;
      black_box_output_2 <- query bb x ;;
      if negb (black_box_output_1 st =? black_box_output_2) then
        ret (mkLoop (black_box_type st + 1) (black_box_output_1 st) (Some c))
      else
        for_counter bb black_box_input_list rest
          (mkLoop (black_box_type st) black_box_output_2 (Some c))
  end.

(** The body of [black_box_classifier] once the index list is shuffled. *)
Definition classify_shuffled (bb : general_black_box.t)
    (number_of_possible_bitsrtings : Z) (black_box_input_list : list Z)
  : M G (Z * Z) :=
  x <- lift (getitem black_box_input_list 0) ;;
  o <- query bb x ;;
  st <- for_counter bb black_box_input_list
          (range (number_of_possible_bitsrtings / 2))
          (mkLoop 0 o None) ;;
  match counter st with
  | Some c => ret (black_box_type st, c + 2)
  | None => raise UnboundLocalError
  end.

Definition black_box_classifier (bb : general_black_box.t) : M G (Z * Z) :=
  let n := general_black_box.input_bitstring_length bb in
  (* [2 ** n] is a float for negative [n], which [range] refuses *)
  if n <? 0 then raise TypeError else
  let number_of_possible_bitsrtings := 2 ^ n in
  black_box_input_list <-
    random_shuffle (range number_of_possible_bitsrtings) ;;
  classify_shuffled bb number_of_possible_bitsrtings black_box_input_list.
End Classifier.

(** ** The trial harness and the scaling driver *)

Section Harness.
Context {G : Type} `{RandomSource G}.

(** The [for i in range(number_of_tests)] loop of the harness. *)
Fixpoint trial_loop (black_box_1 black_box_2 : general_black_box.t)
    (tests : list Z) (number_of_outputs_list black_box_type_list : list Z)
  : M G (list Z * list Z) :=
  match tests with
  | [] => ret (number_of_outputs_list, black_box_type_list)
  | _ :: rest =>
      black_box_in_use <- random_choice [black_box_1; black_box_2] ;;
      ' (black_box_type, number_of_black_box_outputs) <-
        black_box_classifier black_box_in_use ;;
      let number_of_outputs_list :=
        number_of_outputs_list ++ [number_of_black_box_outputs] in
      let black_box_type_list := black_box_type_list ++ [black_box_type] in
      (if negb (general_black_box.type black_box_in_use =? black_box_type)
       then emit (Print "Black box misclassified!")
       else ret tt) ;;;
      trial_loop black_box_1 black_box_2 rest
        number_of_outputs_list black_box_type_list
  end.

Definition test_black_box_classifier
    (length_of_bitstring number_of_tests : Z) : M G (list Z * list Z) :=
  black_box_1 <- general_black_box.__init__ 1 length_of_bitstring ;;
  black_box_2 <- general_black_box.__init__ 0 length_of_bitstring ;;
  trial_loop black_box_1 black_box_2 (range number_of_tests) [] [].

(** The [for i in range(maximum_bitstring_length)] loop of the driver. *)
Fixpoint scaling_loop (lengths : list Z) (number_of_tests : Z)
    (average_operations_list : list npfloat) : M G (list npfloat) :=
  match lengths with
  | [] => ret average_operations_list
  | i :: rest =>
      ' (number_of_outputs_list, _) <-
        test_black_box_classifier (i + 1) number_of_tests ;;
      scaling_loop rest number_of_tests
        (average_operations_list ++ [np_mean number_of_outputs_list])
  end.

(** Returns [None], modelled as [tt]. *)
Definition average_output_number_scaling
    (maximum_bitstring_length number_of_tests : Z) : M G unit :=
  average_operations_list <-
    scaling_loop (range maximum_bitstring_length) number_of_tests [] ;;
  emit (Plot (map (fun i => i + 1) (range maximum_bitstring_length))
             average_operations_list) ;;;
  emit (Title "Average number of outputs computed for classification") ;;;
  emit (Xlabel "Number of bits in bitstring") ;;;
  emit TightLayout ;;;
  emit Show.
End Harness.

(** ** A concrete random source

    A deterministic stand-in for the two generators: the state is a counter,
    a shuffle rotates the list by the counter and a draw below [k] is the
    counter modulo [k].  It shows the interface is inhabited and lets the
    program be run on concrete inputs. *)

Definition rotate (l : list Z) (g : nat) : list Z :=
  let k := Nat.modulo g (List.length l) in skipn k l ++ firstn k l.

Definition counter_below (k : Z) (g : nat) : Z * nat :=
  (Z.of_nat g mod k, S g).

#[export] Instance counter_source : RandomSource nat.
Proof.
  refine {| shuffle_draw := fun l g => (rotate l g, S g);
            below_draw := counter_below;
            np_below_draw := counter_below;
            shuffle_draw_perm := _;
            below_draw_range := _;
            np_below_draw_range := _ |}.
  - intros l g. cbn [fst]. unfold rotate.
    rewrite <- (firstn_skipn (Nat.modulo g (List.length l)) l) at 1.
    apply Permutation_app_comm.
  - intros k g Hk. apply Z.mod_pos_bound. exact Hk.
  - intros k g Hk. apply Z.mod_pos_bound. exact Hk.
Defined.

(** The world a run starts from: generator state [g], empty trace. *)
Definition start (g : nat) : world nat := mkWorld g [].

(** ** Vocabulary of the specification *)

Import general_black_box.

(** The indices passed to the oracle, in call order. *)
Fixpoint queries (tr : list event) : list Z :=
  match tr with
  | [] => []
  | Query i :: tr' => i :: queries tr'
  | _ :: tr' => queries tr'
  end.

(** The oracle constructions, in call order. *)
Fixpoint constructions (tr : list event) : list (Z * Z) :=
  match tr with
  | [] => []
  | Construct ty n :: tr' => (ty, n) :: constructions tr'
  | _ :: tr' => constructions tr'
  end.

(** The data handed to [plt.plot], in call order. *)
Fixpoint plots (tr : list event) : list (list Z * list npfloat) :=
  match tr with
  | [] => []
  | Plot xs ys :: tr' => (xs, ys) :: plots tr'
  | _ :: tr' => plots tr'
  end.

Definition occurrences (v : Z) (a : list Z) : Z :=
  Z.of_nat (count_occ Z.eq_dec a v).

(** Construction invariant of a constant oracle of bit length [n]. *)
Definition Constant (n : Z) (bb : general_black_box.t) : Prop :=
  type bb = 0 /\ input_bitstring_length bb = n /\
  output_array bb = None /\
  exists b, output bb = Some b /\ (b = 0 \/ b = 1).

(** Construction invariant of a balanced oracle of bit length [n]. *)
Definition Balanced (n : Z) (bb : general_black_box.t) : Prop :=
  type bb = 1 /\ input_bitstring_length bb = n /\
  output bb = None /\
  exists a, output_array bb = Some a /\ len a = 2 ^ n /\
    occurrences 0 a = 2 ^ (n - 1) /\ occurrences 1 a = 2 ^ (n - 1).

(** An oracle of either type on which every index in [0, 2^n) can be
    queried, whatever its outputs are. *)
Definition Queryable (n : Z) (bb : general_black_box.t) : Prop :=
  input_bitstring_length bb = n /\
  ((type bb = 0 /\ exists b, output bb = Some b) \/
   (type bb <> 0 /\ exists a, output_array bb = Some a /\ len a = 2 ^ n)).

(** Position (counted from 0 at the head of the whole sequence) of the first
    entry of [outs] that differs from [ref], when [outs] starts at position
    [pos]. *)
Fixpoint find_mismatch (ref : Z) (outs : list Z) (pos : Z) : option Z :=
  match outs with
  | [] => None
  | o :: outs' =>
      if ref =? o then find_mismatch ref outs' (pos + 1) else Some pos
  end.

(** Position of the first output that differs from the first one. *)
Definition first_mismatch_position (outs : list Z) : option Z :=
  match outs with
  | [] => None
  | o :: outs' => find_mismatch o outs' 1
  end.

(** The output of a query that succeeds. *)
Definition value (bb : general_black_box.t) (i : Z) : Z :=
  match input_output_operation bb i with
  | Ok o => o
  | Raise _ => 0
  end.

Definition answers (bb : general_black_box.t) (i : Z) : Prop :=
  exists o, input_output_operation bb i = Ok o.

Definition log {G : Type} (w : world G) (evs : list event) : world G :=
  mkWorld (rng w) (trace w ++ evs).

Section FirstReference.
Context {G : Type} `{RandomSource G}.

(** The loop of the classifier walking the list itself rather than
    indexing it: [xs] are the entries still to be queried and [c] the
    value the loop counter takes at the head of [xs]. *)
Fixpoint scan (bb : general_black_box.t) (xs : list Z) (c : Z)
    (st : loop_state) : M G loop_state :=
  match xs with
  | [] => ret st
  | x :: xs' =>
      black_box_output_2 <- query bb x ;;
      if negb (black_box_output_1 st =? black_box_output_2) then
        ret (mkLoop (black_box_type st + 1) (black_box_output_1 st) (Some c))
      else
        scan bb xs' (c + 1) (mkLoop (black_box_type st) black_box_output_2 (Some c))
  end.

(** The classifier as the specification words it: every queried output is
    compared against the first queried output, which is never
    overwritten. *)
Fixpoint for_counter_first (bb : general_black_box.t)
    (black_box_input_list : list Z) (counters : list Z) (st : loop_state)
  : M G loop_state :=
  match counters with
  | [] => ret st
  | c :: rest =>
      x <- lift (getitem black_box_input_list (c + 1)) ;;
      black_box_output_2 <- query bb x ;;
      if negb (black_box_output_1 st =? black_box_output_2) then
        ret (mkLoop (black_box_type st + 1) (black_box_output_1 st) (Some c))
      else
        for_counter_first bb black_box_input_list rest
          (mkLoop (black_box_type st) (black_box_output_1 st) (Some c))
  end.

Definition classify_first_reference (bb : general_black_box.t)
    (number_of_possible_bitsrtings : Z) (black_box_input_list : list Z)
  : M G (Z * Z) :=
  x <- lift (getitem black_box_input_list 0) ;;
  o <- query bb x ;;
  st <- for_counter_first bb black_box_input_list
          (range (number_of_possible_bitsrtings / 2))
          (mkLoop 0 o None) ;;
  match counter st with
  | Some c => ret (black_box_type st, c + 2)
  | None => raise UnboundLocalError
  end.

Definition black_box_classifier_first_reference (bb : general_black_box.t)
  : M G (Z * Z) :=
  let n := input_bitstring_length bb in
  if n <? 0 then raise TypeError else
  let number_of_possible_bitsrtings := 2 ^ n in
  black_box_input_list <-
    random_shuffle (range number_of_possible_bitsrtings) ;;
  classify_first_reference bb number_of_possible_bitsrtings
    black_box_input_list.
End FirstReference.

(** One trial of the harness over the two pre-built oracles: some state [w]
    of the run in which [random.choice] over the pair draws index [i] below
    2, picks the balanced box for 0 and the constant box for 1, and
    classifying the pick yields [(ty, q)]. *)
Definition is_trial {G : Type} `{RandomSource G}
    (black_box_1 black_box_2 : general_black_box.t) (ty q : Z) : Prop :=
  exists (w w' : world G) (pick : general_black_box.t),
    pick = (if fst (below_draw 2 (rng w)) =? 0
            then black_box_1 else black_box_2) /\
    random_choice [black_box_1; black_box_2] w = (Ok pick, w') /\
    fst (black_box_classifier pick w') = Ok (ty, q).

(** A point of the scaling curve: [y] is the arithmetic mean of the
    [trials] query counts the harness recorded in some run for bit length
    [n]. *)
Definition is_mean_point {G : Type} `{RandomSource G}
    (trials n : Z) (y : npfloat) : Prop :=
  exists (w w' : world G) (outs types : list Z),
    test_black_box_classifier n trials w = (Ok (outs, types), w') /\
    len outs = trials /\
    y = Real (sum outs # Z.to_pos trials).

(** What the driver does after its loop, given the means it collected. *)
Definition plot_calls (maximum_bitstring_length : Z) (ys : list npfloat)
  : list event :=
  [Plot (map (fun i => i + 1) (range maximum_bitstring_length)) ys;
   Title "Average number of outputs computed for classification";
   Xlabel "Number of bits in bitstring";
   TightLayout;
   Show].

(** Sample oracles. *)
Definition constant_box_1 : general_black_box.t := mk 0 1 (Some 1) None.
Definition constant_box_3 : general_black_box.t := mk 0 3 (Some 0) None.
Definition balanced_box_1 : general_black_box.t := mk 1 1 None (Some [1; 0]).
Definition balanced_box_2 : general_black_box.t :=
  mk 1 2 None (Some [0; 1; 1; 0]).

(** An oracle with an array that is neither constant nor balanced, and a
    constant oracle of bit length 0. *)
Definition unbalanced_box_2 : general_black_box.t :=
  mk 1 2 None (Some [7; 7; 7; 0]).

(** The messages printed, in order. *)
Fixpoint prints (tr : list event) : list string :=
  match tr with
  | [] => []
  | Print s :: tr' => s :: prints tr'
  | _ :: tr' => prints tr'
  end.

(** What the harness may record for one trial at bit length [n]: a
    balanced verdict with a count between 2 and [2^(n-1) + 1], or a
    constant verdict with the full count. *)
Definition is_record (n ty q : Z) : Prop :=
  (ty = 1 /\ 2 <= q <= 2 ^ (n - 1) + 1) \/ (ty = 0 /\ q = 2 ^ (n - 1) + 1).

(** Two orders of the indices [0 .. 2^n - 1] for an oracle: all indices
    answered with 0 before all others, and one index answered with 0, then
    one answered otherwise, then the rest. *)
Definition zero_indices (n : Z) (bb : general_black_box.t) : list Z :=
  filter (fun i => value bb i =? 0) (range (2 ^ n)).

Definition other_indices (n : Z) (bb : general_black_box.t) : list Z :=
  filter (fun i => negb (value bb i =? 0)) (range (2 ^ n)).

Definition worst_order (n : Z) (bb : general_black_box.t) : list Z :=
  zero_indices n bb ++ other_indices n bb.

Definition best_order (n : Z) (bb : general_black_box.t) : list Z :=
  match zero_indices n bb, other_indices n bb with
  | z :: zs, o :: os => z :: o :: zs ++ os
  | _, _ => range (2 ^ n)
  end.

(** The bit lengths for which the interpreter evaluates [2 ** n],
    [int(2 ** n / 2)] and the sizes of the lists and arrays of [2^n]
    entries without an overflow: [n] converts to a float, the float
    division is exact, and [2^n] eight-byte entries fit a signed 64-bit
    size.  Whether the machine has that much memory is not modelled. *)
Definition representable (n : Z) : Prop := - 2 ^ 1023 <= n < 60.


(** ** Facts about the runtime *)

Lemma len_nonneg {A : Type} (l : list A) : 0 <= len l.
Proof. unfold len. lia. Qed.

Lemma range_length (k : Z) : List.length (range k) = Z.to_nat k.
Proof. unfold range. now rewrite length_map, length_seq. Qed.

Lemma in_range (k i : Z) : In i (range k) <-> 0 <= i < k.
Proof.
  unfold range. rewrite in_map_iff. split.
  - intros [j [<- Hj]]. apply in_seq in Hj. lia.
  - intros Hi. exists (Z.to_nat i). split; [lia|]. apply in_seq. lia.
Qed.

Lemma range_nodup (k : Z) : NoDup (range k).
Proof.
  unfold range. apply Finite.Injective_map_NoDup.
  - intros a b Hab. lia.
  - apply seq_NoDup.
Qed.

Lemma getitem_nth {A : Type} (l : list A) (i : nat) (d : A) :
  (i < List.length l)%nat -> getitem l (Z.of_nat i) = Ok (nth i l d).
Proof.
  intros Hi. unfold getitem, len.
  replace (Z.of_nat i <? 0) with false by (symmetry; apply Z.ltb_ge; lia).
  replace (0 <=? Z.of_nat i) with true by (symmetry; apply Z.leb_le; lia).
  replace (Z.of_nat i <? Z.of_nat (List.length l)) with true
    by (symmetry; apply Z.ltb_lt; lia).
  simpl. rewrite Nat2Z.id.
  rewrite (nth_error_nth' l d Hi). reflexivity.
Qed.

Lemma getitem_too_large {A : Type} (l : list A) (i : Z) :
  len l <= i -> getitem l i = Raise IndexError.
Proof.
  intros Hi. pose proof (len_nonneg l) as Hl. unfold getitem.
  replace (i <? 0) with false by (symmetry; apply Z.ltb_ge; lia).
  replace (i <? len l) with false by (symmetry; apply Z.ltb_ge; lia).
  now rewrite andb_false_r.
Qed.

Lemma getitem_too_small {A : Type} (l : list A) (i : Z) :
  i < - len l -> getitem l i = Raise IndexError.
Proof.
  intros Hi. pose proof (len_nonneg l) as Hl. unfold getitem.
  replace (i <? 0) with true by (symmetry; apply Z.ltb_lt; lia).
  replace (0 <=? i + len l) with false by (symmetry; apply Z.leb_gt; lia).
  reflexivity.
Qed.

Lemma getitem_negative {A : Type} (l : list A) (i : Z) :
  - len l <= i < 0 -> getitem l i = getitem l (i + len l).
Proof.
  intros Hi. unfold getitem.
  replace (i <? 0) with true by (symmetry; apply Z.ltb_lt; lia).
  replace (i + len l <? 0) with false by (symmetry; apply Z.ltb_ge; lia).
  reflexivity.
Qed.

Lemma getitem_inside {A : Type} (l : list A) (i : Z) :
  0 <= i < len l -> exists x, getitem l i = Ok x.
Proof.
  intros Hi. unfold len in Hi.
  destruct l as [|d l']; [simpl in Hi; lia|].
  exists (nth (Z.to_nat i) (d :: l') d).
  rewrite <- (Z2Nat.id i) at 1 by lia. apply getitem_nth. lia.
Qed.

Lemma np_getitem_too_large {A : Type} (a : list A) (i : Z) :
  len a <= i ->
  np_getitem a i =
  Raise (if (2 ^ 63 <=? i) && (i <? 2 ^ 64) then OverflowError
         else IndexError).
Proof.
  intros Hi. unfold np_getitem. rewrite (getitem_too_large a i Hi).
  now destruct ((2 ^ 63 <=? i) && (i <? 2 ^ 64)).
Qed.

Lemma np_getitem_too_small {A : Type} (a : list A) (i : Z) :
  i < - len a -> np_getitem a i = Raise IndexError.
Proof.
  intros Hi. pose proof (len_nonneg a) as Hl.
  unfold np_getitem. rewrite (getitem_too_small a i Hi).
  replace (2 ^ 63 <=? i) with false; [reflexivity|].
  symmetry. apply Z.leb_gt. assert (0 < 2 ^ 63) by (apply Z.pow_pos_nonneg; lia).
  lia.
Qed.

Lemma np_getitem_negative {A : Type} (a : list A) (i : Z) :
  - len a <= i < 0 -> np_getitem a i = np_getitem a (i + len a).
Proof.
  intros Hi. unfold np_getitem. rewrite (getitem_negative a i Hi).
  destruct (getitem_inside a (i + len a) ltac:(lia)) as [x ->].
  reflexivity.
Qed.

(** ** Facts about mismatch positions *)

Lemma find_mismatch_bounds (ref : Z) (outs : list Z) (pos p : Z) :
  find_mismatch ref outs pos = Some p -> pos <= p < pos + len outs.
Proof.
  revert pos. induction outs as [|o outs IH]; intros pos Hp; simpl in Hp.
  - discriminate.
  - unfold len. simpl List.length. destruct (ref =? o).
    + apply IH in Hp. unfold len in Hp. lia.
    + inversion Hp. lia.
Qed.

Lemma find_mismatch_none (ref : Z) (outs : list Z) (pos : Z) :
  find_mismatch ref outs pos = None -> Forall (eq ref) outs.
Proof.
  revert pos. induction outs as [|o outs IH]; intros pos Hp; simpl in Hp.
  - constructor.
  - destruct (ref =? o) eqn:E; [|discriminate].
    apply Z.eqb_eq in E. constructor; [exact E|]. eapply IH. exact Hp.
Qed.

Lemma find_mismatch_prefix (ref : Z) (outs : list Z) (k : nat) (pos p : Z) :
  find_mismatch ref (firstn k outs) pos = Some p ->
  find_mismatch ref outs pos = Some p.
Proof.
  revert k pos. induction outs as [|o outs IH]; intros k pos Hp.
  - rewrite firstn_nil in Hp. discriminate.
  - destruct k as [|k]; simpl in Hp; [discriminate|]. simpl.
    destruct (ref =? o); [|exact Hp]. eapply IH. exact Hp.
Qed.

Lemma log_log {G : Type} (w : world G) (e1 e2 : list event) :
  log (log w e1) e2 = log w (e1 ++ e2).
Proof. unfold log. simpl. now rewrite app_assoc. Qed.

Lemma log_nil {G : Type} (w : world G) : log w [] = w.
Proof. destruct w. unfold log. simpl. now rewrite app_nil_r. Qed.

Lemma skipn_cons_nth {A : Type} (l : list A) (i : nat) (d : A) :
  (i < List.length l)%nat -> skipn i l = nth i l d :: skipn (S i) l.
Proof.
  revert i. induction l as [|a l IH]; intros i Hi; simpl in Hi; [lia|].
  destruct i as [|i]; [reflexivity|].
  cbn [skipn nth]. apply IH. lia.
Qed.

(** ** The classifier's loop *)

Section Loop.
Context {G : Type} `{RandomSource G}.
Variable bb : general_black_box.t.

Lemma query_run (x : Z) (w : world G) :
  query bb x w = (input_output_operation bb x, log w [Query x]).
Proof. reflexivity. Qed.

Lemma answers_value (x : Z) :
  answers bb x -> input_output_operation bb x = Ok (value bb x).
Proof. intros [o Ho]. unfold value. now rewrite Ho. Qed.

(** What the walk over a list of answered indices returns and logs. *)
Lemma scan_spec (xs : list Z) :
  forall (c ty ref : Z) (cnt : option Z) (w : world G),
  Forall (answers bb) xs ->
  scan bb xs c (mkLoop ty ref cnt) w =
  match find_mismatch ref (map (value bb) xs) (c + 1) with
  | Some p =>
      (Ok (mkLoop (ty + 1) ref (Some (p - 1))),
       log w (map Query (firstn (Z.to_nat (p - c)) xs)))
  | None =>
      (Ok (mkLoop ty ref
             (match xs with [] => cnt | _ :: _ => Some (c + len xs - 1) end)),
       log w (map Query xs))
  end.
Proof.
  induction xs as [|x xs' IH]; intros c ty ref cnt w Hall.
  - simpl. now rewrite log_nil.
  - inversion Hall as [|? ? Hx Hxs]; subst.
    cbn [scan]. unfold bind at 1. rewrite query_run, (answers_value x Hx).
    cbn [black_box_output_1 black_box_type map find_mismatch].
    destruct (ref =? value bb x) eqn:E; cbn [negb].
    + apply Z.eqb_eq in E. rewrite <- E.
      rewrite (IH (c + 1) ty ref (Some c) _ Hxs).
      destruct (find_mismatch ref (map (value bb) xs') (c + 1 + 1)) as [p|] eqn:F.
      * apply find_mismatch_bounds in F.
        rewrite log_log.
        replace (Z.to_nat (p - c)) with (S (Z.to_nat (p - (c + 1)))) by lia.
        reflexivity.
      * rewrite log_log. cbn [map app].
        replace (match xs' with
                 | [] => Some c
                 | _ :: _ => Some (c + 1 + len xs' - 1)
                 end) with (Some (c + len (x :: xs') - 1)); [reflexivity|].
        destruct xs'; unfold len; simpl List.length; f_equal; lia.
    + unfold ret. replace (c + 1 - 1) with c by lia.
      replace (Z.to_nat (c + 1 - c)) with 1%nat by lia. reflexivity.
Qed.

(** Indexing the shuffled list by the loop counter walks its tail. *)
Lemma for_counter_scan (l : list Z) (k : nat) :
  forall (c0 : nat) (st : loop_state) (w : world G),
  (c0 + k < List.length l)%nat ->
  for_counter bb l (map Z.of_nat (seq c0 k)) st w =
  scan bb (firstn k (skipn (S c0) l)) (Z.of_nat c0) st w.
Proof.
  induction k as [|k IH]; intros c0 st w Hlen.
  - reflexivity.
  - cbn [seq map for_counter].
    rewrite (skipn_cons_nth l (S c0) 0) by lia. cbn [firstn scan].
    unfold bind at 1. unfold lift at 1.
    replace (Z.of_nat c0 + 1) with (Z.of_nat (S c0)) by lia.
    rewrite (getitem_nth l (S c0) 0) by lia.
    unfold bind. rewrite !query_run.
    destruct (input_output_operation bb (nth (S c0) l 0)) as [o|e];
      [|reflexivity].
    destruct (negb (black_box_output_1 st =? o)); [reflexivity|].
    rewrite IH by lia. reflexivity.
Qed.
End Loop.

Lemma find_mismatch_all_equal (ref : Z) (outs : list Z) (pos : Z) :
  Forall (eq ref) outs -> find_mismatch ref outs pos = None.
Proof.
  revert pos. induction outs as [|o outs IH]; intros pos Hall; simpl.
  - reflexivity.
  - inversion Hall as [|? ? Ho Houts]; subst. rewrite Z.eqb_refl.
    now apply IH.
Qed.

Lemma range_seq (k : Z) : range k = map Z.of_nat (seq 0 (Z.to_nat k)).
Proof. reflexivity. Qed.

Section Shuffled.
Context {G : Type} `{RandomSource G}.
Variable bb : general_black_box.t.

(** The verdict, the count and the queries of the classifier on a
    shuffled list [x0 :: rest] whose first [N/2 + 1] entries the oracle
    answers. *)
Lemma classify_shuffled_spec (N x0 : Z) (rest : list Z) (w : world G) :
  (Z.to_nat (N / 2) <= List.length rest)%nat ->
  Forall (answers bb) (x0 :: firstn (Z.to_nat (N / 2)) rest) ->
  classify_shuffled bb N (x0 :: rest) w =
  match find_mismatch (value bb x0)
          (map (value bb) (firstn (Z.to_nat (N / 2)) rest)) 1 with
  | Some p =>
      (Ok (1, p + 1),
       log w (map Query
                (x0 :: firstn (Z.to_nat p) (firstn (Z.to_nat (N / 2)) rest))))
  | None =>
      match Z.to_nat (N / 2) with
      | O => (Raise UnboundLocalError, log w [Query x0])
      | S _ =>
          (Ok (0, Z.of_nat (Z.to_nat (N / 2)) + 1),
           log w (map Query (x0 :: firstn (Z.to_nat (N / 2)) rest)))
      end
  end.
Proof.
  intros Hlen Hall. inversion Hall as [|? ? Hx0 Hrest]; subst.
  unfold classify_shuffled.
  unfold bind at 1. unfold lift at 1.
  change (getitem (x0 :: rest) 0) with (@Ok Z x0). cbv iota beta.
  unfold bind at 1. rewrite query_run, (answers_value bb x0 Hx0).
  unfold bind at 1. rewrite range_seq.
  rewrite for_counter_scan by (cbn [List.length]; lia).
  change (skipn 1 (x0 :: rest)) with rest.
  rewrite scan_spec by exact Hrest.
  change (Z.of_nat 0 + 1) with 1.
  destruct (find_mismatch (value bb x0)
              (map (value bb) (firstn (Z.to_nat (N / 2)) rest)) 1)
    as [p|] eqn:F.
  - cbn [counter black_box_type]. unfold ret. rewrite log_log.
    change (Z.of_nat 0) with 0. rewrite Z.sub_0_r.
    replace (p - 1 + 2) with (p + 1) by lia. reflexivity.
  - cbn [counter black_box_type]. rewrite log_log.
    destruct (Z.to_nat (N / 2)) as [|k] eqn:K.
    + rewrite firstn_O. reflexivity.
    + destruct (firstn (S k) rest) as [|y ys] eqn:E.
      * apply (f_equal (@List.length Z)) in E.
        rewrite length_firstn in E. cbn [List.length] in E. lia.
      * unfold ret. f_equal. f_equal. f_equal.
        rewrite <- E. unfold len. rewrite length_firstn. lia.
Qed.

Lemma black_box_classifier_run (w : world G) :
  0 <= input_bitstring_length bb ->
  black_box_classifier bb w =
  classify_shuffled bb (2 ^ input_bitstring_length bb)
    (fst (shuffle_draw (range (2 ^ input_bitstring_length bb)) (rng w)))
    (mkWorld
       (snd (shuffle_draw (range (2 ^ input_bitstring_length bb)) (rng w)))
       (trace w)).
Proof.
  intros Hn. unfold black_box_classifier.
  replace (input_bitstring_length bb <? 0) with false
    by (symmetry; apply Z.ltb_ge; lia).
  unfold bind at 1. unfold random_shuffle, draw.
  destruct (shuffle_draw (range (2 ^ input_bitstring_length bb)) (rng w)).
  reflexivity.
Qed.
End Shuffled.

(** ** Facts about oracles *)

Lemma map_nth_seq {A : Type} (a : list A) (d : A) :
  map (fun i => nth i a d) (seq 0 (List.length a)) = a.
Proof.
  induction a as [|x a IH]; [reflexivity|].
  cbn [List.length seq map nth]. f_equal.
  rewrite <- seq_shift, map_map. exact IH.
Qed.

Lemma array_answers (bb : general_black_box.t) (a : list Z) (i : Z) :
  type bb <> 0 -> output_array bb = Some a -> 0 <= i < len a ->
  input_output_operation bb i = Ok (nth (Z.to_nat i) a 0).
Proof.
  intros Hty Ha Hi. unfold input_output_operation.
  replace (type bb =? 0) with false by (symmetry; now apply Z.eqb_neq).
  rewrite Ha. unfold np_getitem. rewrite <- (Z2Nat.id i) at 1 by lia.
  rewrite (getitem_nth a (Z.to_nat i) 0) by (unfold len in Hi; lia).
  reflexivity.
Qed.

Lemma constant_answers (bb : general_black_box.t) (b i : Z) :
  type bb = 0 -> output bb = Some b -> input_output_operation bb i = Ok b.
Proof.
  intros Hty Hb. unfold input_output_operation. now rewrite Hty, Hb.
Qed.

Lemma queryable_answers (n : Z) (bb : general_black_box.t) (i : Z) :
  Queryable n bb -> 0 <= i < 2 ^ n -> answers bb i.
Proof.
  intros [_ [[Hty [b Hb]]|[Hty [a [Ha Hlen]]]]] Hi.
  - exists b. now apply constant_answers.
  - exists (nth (Z.to_nat i) a 0). apply array_answers; [assumption..|lia].
Qed.

Lemma Constant_Queryable (n : Z) (bb : general_black_box.t) :
  Constant n bb -> Queryable n bb.
Proof.
  intros [Hty [Hn [_ [b [Hb _]]]]]. split; [exact Hn|]. left. eauto.
Qed.

Lemma Balanced_Queryable (n : Z) (bb : general_black_box.t) :
  Balanced n bb -> Queryable n bb.
Proof.
  intros [Hty [Hn [_ [a [Ha [Hlen _]]]]]]. split; [exact Hn|]. right.
  split; [lia|]. eauto.
Qed.

(** The outputs of a balanced oracle along the natural index order are its
    array. *)
Lemma array_values (bb : general_black_box.t) (a : list Z) :
  type bb <> 0 -> output_array bb = Some a ->
  map (value bb) (range (len a)) = a.
Proof.
  intros Hty Ha. unfold range, len. rewrite Nat2Z.id, map_map.
  rewrite <- (map_nth_seq a 0) at 2.
  apply map_ext_in. intros i Hi. apply in_seq in Hi.
  unfold value. rewrite (array_answers bb a) by (unfold len; auto; lia).
  now rewrite Nat2Z.id.
Qed.

(** ** Arithmetic of the domain size *)

Lemma pow2_double (n : Z) : 1 <= n -> 2 ^ n = 2 * 2 ^ (n - 1).
Proof.
  intros Hn. replace n with (Z.succ (n - 1)) at 1 by lia.
  apply Z.pow_succ_r. lia.
Qed.

Lemma pow2_half (n : Z) : 1 <= n -> 2 ^ n / 2 = 2 ^ (n - 1).
Proof.
  intros Hn. rewrite (pow2_double n Hn), Z.mul_comm. apply Z.div_mul. lia.
Qed.

Lemma pow2_pred_pos (n : Z) : 1 <= n -> 1 <= 2 ^ (n - 1).
Proof.
  intros Hn. assert (0 < 2 ^ (n - 1)) by (apply Z.pow_pos_nonneg; lia). lia.
Qed.

(** ** Facts about traces *)

Lemma queries_app (t1 t2 : list event) :
  queries (t1 ++ t2) = queries t1 ++ queries t2.
Proof.
  induction t1 as [|e t1 IH]; [reflexivity|].
  destruct e; simpl; rewrite IH; reflexivity.
Qed.

Lemma queries_map_Query (xs : list Z) : queries (map Query xs) = xs.
Proof. induction xs as [|x xs IH]; simpl; [|rewrite IH]; reflexivity. Qed.

Lemma constructions_app (t1 t2 : list event) :
  constructions (t1 ++ t2) = constructions t1 ++ constructions t2.
Proof.
  induction t1 as [|e t1 IH]; [reflexivity|].
  destruct e; simpl; rewrite IH; reflexivity.
Qed.

Lemma constructions_map_Query (xs : list Z) :
  constructions (map Query xs) = [].
Proof. induction xs as [|x xs IH]; simpl; [|rewrite IH]; reflexivity. Qed.

Lemma plots_app (t1 t2 : list event) :
  plots (t1 ++ t2) = plots t1 ++ plots t2.
Proof.
  induction t1 as [|e t1 IH]; [reflexivity|].
  destruct e; simpl; rewrite IH; reflexivity.
Qed.

Lemma plots_map_Query (xs : list Z) : plots (map Query xs) = [].
Proof. induction xs as [|x xs IH]; simpl; [|rewrite IH]; reflexivity. Qed.

(** ** Facts about permutations of the index list *)

Lemma count_all_equal (v : Z) (xs : list Z) :
  Forall (eq v) xs -> count_occ Z.eq_dec xs v = List.length xs.
Proof.
  induction 1 as [|x xs Hx _ IH]; [reflexivity|].
  subst x. simpl. destruct (Z.eq_dec v v); [now rewrite IH|contradiction].
Qed.

(** A run of [k] equal values at the head of a list bounds the number of
    occurrences of that value from below. *)
Lemma count_prefix (v : Z) (xs : list Z) (k : nat) :
  (k <= List.length xs)%nat -> Forall (eq v) (firstn k xs) ->
  (k <= count_occ Z.eq_dec xs v)%nat.
Proof.
  intros Hk Hall. rewrite <- (firstn_skipn k xs), count_occ_app.
  rewrite (count_all_equal v _ Hall), length_firstn. lia.
Qed.

(** Three distinct values share the entries of a list. *)
Lemma count_three (u v x : Z) (a : list Z) :
  u <> v -> x <> u -> x <> v ->
  (count_occ Z.eq_dec a x + count_occ Z.eq_dec a u + count_occ Z.eq_dec a v
   <= List.length a)%nat.
Proof.
  intros Huv Hxu Hxv. induction a as [|y a IH]; [simpl; lia|].
  cbn [count_occ List.length].
  destruct (Z.eq_dec y x), (Z.eq_dec y u), (Z.eq_dec y v); lia.
Qed.

(** No value occurs more than [2^(n-1)] times in a balanced array. *)
Lemma balanced_count_bound (n v : Z) (a : list Z) :
  1 <= n -> len a = 2 ^ n ->
  occurrences 0 a = 2 ^ (n - 1) -> occurrences 1 a = 2 ^ (n - 1) ->
  occurrences v a <= 2 ^ (n - 1).
Proof.
  intros Hn Hlen H0 H1. unfold occurrences, len in *.
  pose proof (pow2_double n Hn) as Hd.
  destruct (Z.eq_dec v 0) as [->|Hv0]; [lia|].
  destruct (Z.eq_dec v 1) as [->|Hv1]; [lia|].
  pose proof (count_three 0 1 v a ltac:(lia) Hv0 Hv1). lia.
Qed.

Section Permuted.
Variable n : Z.
Hypothesis n_pos : 1 <= n.
Variable l : list Z.
Hypothesis l_perm : Permutation (range (2 ^ n)) l.

Lemma perm_length : List.length l = Z.to_nat (2 ^ n).
Proof.
  rewrite <- (Permutation_length l_perm). apply range_length.
Qed.

Lemma perm_in_range (i : Z) : In i l -> 0 <= i < 2 ^ n.
Proof.
  intros Hi. apply in_range.
  eapply Permutation_in; [symmetry; exact l_perm|exact Hi].
Qed.

Lemma perm_nodup : NoDup l.
Proof. eapply Permutation_NoDup; [exact l_perm|apply range_nodup]. Qed.

Lemma perm_cons :
  exists x0 rest, l = x0 :: rest /\
    (Z.to_nat (2 ^ n / 2) <= List.length rest)%nat.
Proof.
  pose proof perm_length as Hlen.
  pose proof (pow2_double n n_pos) as Hd.
  pose proof (pow2_pred_pos n n_pos) as Hp.
  rewrite (pow2_half n n_pos).
  destruct l as [|x0 rest]; simpl in Hlen; [lia|].
  exists x0, rest. split; [reflexivity|]. lia.
Qed.

Lemma perm_answers (bb : general_black_box.t) :
  Queryable n bb -> Forall (answers bb) l.
Proof.
  intros Hq. apply Forall_forall. intros i Hi.
  eapply queryable_answers; [exact Hq|]. now apply perm_in_range.
Qed.

(** Along a permutation of the indices, a balanced oracle outputs a
    permutation of its array. *)
Lemma perm_values (bb : general_black_box.t) (a : list Z) :
  type bb <> 0 -> output_array bb = Some a -> len a = 2 ^ n ->
  Permutation a (map (value bb) l).
Proof.
  intros Hty Ha Hlen. rewrite <- (array_values bb a Hty Ha), Hlen.
  apply Permutation_map. exact l_perm.
Qed.
End Permuted.

(** ** The classifier on a permutation of the indices *)

Section Outcome.
Context {G : Type} `{RandomSource G}.
Variable n : Z.
Hypothesis n_pos : 1 <= n.
Variable bb : general_black_box.t.

(** On a queryable oracle the classifier returns, and its verdict, count
    and queries are read off the first mismatch among the outputs at the
    first [2^(n-1) + 1] entries of the permutation. *)
Lemma classifier_outcome (l : list Z) (w : world G) :
  Queryable n bb -> Permutation (range (2 ^ n)) l ->
  exists x0 rest, l = x0 :: rest /\
    (Z.to_nat (2 ^ (n - 1)) <= List.length rest)%nat /\
    classify_shuffled bb (2 ^ n) l w =
    match find_mismatch (value bb x0)
            (map (value bb) (firstn (Z.to_nat (2 ^ (n - 1))) rest)) 1 with
    | Some p =>
        (Ok (1, p + 1),
         log w (map Query
                  (x0 :: firstn (Z.to_nat p)
                           (firstn (Z.to_nat (2 ^ (n - 1))) rest))))
    | None =>
        (Ok (0, 2 ^ (n - 1) + 1),
         log w (map Query (x0 :: firstn (Z.to_nat (2 ^ (n - 1))) rest)))
    end.
Proof.
  intros Hq Hperm.
  destruct (perm_cons n n_pos l Hperm) as [x0 [rest [-> Hlen]]].
  pose proof (perm_answers n _ Hperm bb Hq) as Hall.
  pose proof (pow2_pred_pos n n_pos) as Hp.
  exists x0, rest. split; [reflexivity|].
  rewrite (pow2_half n n_pos) in Hlen. split; [exact Hlen|].
  rewrite classify_shuffled_spec; rewrite (pow2_half n n_pos).
  - destruct (find_mismatch _ _ 1); [reflexivity|].
    destruct (Z.to_nat (2 ^ (n - 1))) as [|k] eqn:K; [lia|].
    rewrite <- K, Z2Nat.id by lia. reflexivity.
  - exact Hlen.
  - inversion Hall as [|? ? Hx0 Hrest]; subst. constructor; [exact Hx0|].
    rewrite <- (firstn_skipn (Z.to_nat (2 ^ (n - 1))) rest) in Hrest.
    apply Forall_app in Hrest. apply Hrest.
Qed.

(** Pigeonhole: a balanced oracle shows a mismatch among the first
    [2^(n-1) + 1] entries of any permutation of the indices. *)
Lemma balanced_mismatch (x0 : Z) (rest : list Z) :
  Balanced n bb -> Permutation (range (2 ^ n)) (x0 :: rest) ->
  (Z.to_nat (2 ^ (n - 1)) <= List.length rest)%nat ->
  exists p,
    find_mismatch (value bb x0)
      (map (value bb) (firstn (Z.to_nat (2 ^ (n - 1))) rest)) 1 = Some p.
Proof.
  intros [Hty [_ [_ [a [Ha [Hlen [H0 H1]]]]]]] Hperm Hk.
  destruct (find_mismatch _ _ 1) as [p|] eqn:F; [eauto|exfalso].
  apply find_mismatch_none in F.
  assert (Hne : type bb <> 0) by lia.
  pose proof (perm_values n _ Hperm bb a Hne Ha Hlen) as Hvals.
  pose proof (balanced_count_bound n (value bb x0) a n_pos Hlen H0 H1) as Hb.
  unfold occurrences in Hb.
  rewrite (proj1 (Permutation_count_occ Z.eq_dec _ _) Hvals) in Hb.
  pose proof (count_prefix (value bb x0) (map (value bb) (x0 :: rest))
                (S (Z.to_nat (2 ^ (n - 1))))) as Hc.
  pose proof (pow2_pred_pos n n_pos) as Hp.
  assert (S (Z.to_nat (2 ^ (n - 1)))
          <= count_occ Z.eq_dec (map (value bb) (x0 :: rest)) (value bb x0))%nat.
  { apply Hc.
    - rewrite length_map. cbn [List.length]. lia.
    - cbn [map firstn]. constructor; [reflexivity|].
      rewrite firstn_map. exact F. }
  lia.
Qed.

(** A constant oracle never shows a mismatch. *)
Lemma constant_no_mismatch (x0 : Z) (xs : list Z) (pos : Z) :
  Constant n bb ->
  find_mismatch (value bb x0) (map (value bb) xs) pos = None.
Proof.
  intros [Hty [_ [_ [b [Hb _]]]]]. apply find_mismatch_all_equal.
  apply Forall_map, Forall_forall. intros x _. unfold value.
  now rewrite !(constant_answers bb b _ Hty Hb).
Qed.
End Outcome.

(** The function as written is its body run on the list its shuffle leaves,
    which is a permutation of the indices. *)
Lemma classifier_via_shuffle {G : Type} `{RandomSource G}
    (n : Z) (bb : general_black_box.t) (w : world G) :
  input_bitstring_length bb = n -> 0 <= n ->
  exists l w',
    l = fst (shuffle_draw (range (2 ^ n)) (rng w)) /\
    Permutation (range (2 ^ n)) l /\
    trace w' = trace w /\
    black_box_classifier bb w = classify_shuffled bb (2 ^ n) l w'.
Proof.
  intros Hn Hpos. subst n.
  eexists. eexists. split; [reflexivity|]. split; [apply shuffle_draw_perm|].
  split; [|apply black_box_classifier_run; exact Hpos]. reflexivity.
Qed.

Lemma sample_constant_1 : Constant 1 constant_box_1.
Proof.
  repeat split; try reflexivity. exists 1. split; [reflexivity|now right].
Qed.

Lemma sample_balanced_1 : Balanced 1 balanced_box_1.
Proof.
  repeat split; try reflexivity. exists [1; 0]. repeat split; reflexivity.
Qed.

Lemma sample_balanced_2 : Balanced 2 balanced_box_2.
Proof.
  repeat split; try reflexivity. exists [0; 1; 1; 0].
  repeat split; reflexivity.
Qed.

(** * The classifier's verdict and query count *)

(** C1. For every [n >= 1] and every oracle satisfying its construction
    invariant (constant, or balanced with [2^(n-1)] zeros and [2^(n-1)]
    ones in an array of length [2^n]), the classifier returns the oracle's
    true type as its verdict: on every permutation of the index list, and
    so on whatever its own shuffle produces. *)
Theorem classifier_never_misclassifies {G : Type} `{RandomSource G}
    (n : Z) (bb : general_black_box.t) :
  1 <= n -> Constant n bb \/ Balanced n bb ->
  (forall (l : list Z) (w : world G),
     Permutation (range (2 ^ n)) l ->
     exists q, fst (classify_shuffled bb (2 ^ n) l w) = Ok (type bb, q)) /\
  (forall w : world G,
     exists q, fst (black_box_classifier bb w) = Ok (type bb, q)).
Proof.
  intros Hn Hinv.
  assert (Hshuffled : forall (l : list Z) (w : world G),
    Permutation (range (2 ^ n)) l ->
    exists q, fst (classify_shuffled bb (2 ^ n) l w) = Ok (type bb, q)).
  { intros l w Hperm. destruct Hinv as [Hc|Hb].
    - destruct (classifier_outcome n Hn bb l w (Constant_Queryable n bb Hc) Hperm)
        as [x0 [rest [-> [_ Hrun]]]].
      rewrite Hrun, (constant_no_mismatch n bb x0 _ 1 Hc).
      destruct Hc as [-> _]. eexists. reflexivity.
    - destruct (classifier_outcome n Hn bb l w (Balanced_Queryable n bb Hb) Hperm)
        as [x0 [rest [-> [Hlen Hrun]]]].
      destruct (balanced_mismatch n Hn bb x0 rest Hb Hperm Hlen) as [p Hp].
      rewrite Hrun, Hp. destruct Hb as [-> _]. eexists. reflexivity. }
  split; [exact Hshuffled|]. intros w.
  assert (Hlen : input_bitstring_length bb = n)
    by (destruct Hinv as [Hc|Hb]; [apply Hc|apply Hb]).
  destruct (classifier_via_shuffle n bb w Hlen ltac:(lia))
    as [l [w' [_ [Hperm [_ ->]]]]].
  now apply Hshuffled.
Qed.

Lemma classifier_never_misclassifies_witness :
  1 <= 2 /\ (Constant 2 balanced_box_2 \/ Balanced 2 balanced_box_2) /\
  exists q, fst (black_box_classifier balanced_box_2 (start 1)) = Ok (1, q).
Proof.
  assert (Hn : 1 <= 2) by lia.
  pose proof (or_intror sample_balanced_2
              : Constant 2 balanced_box_2 \/ Balanced 2 balanced_box_2) as Hinv.
  split; [exact Hn|]. split; [exact Hinv|].
  exact (proj2 (classifier_never_misclassifies (G := nat) 2 balanced_box_2
                  Hn Hinv) (start 1)).
Defined.

(** C2. For every [n >= 1] and every oracle of either type, the query count
    the classifier returns lies between [2] and [2^(n-1) + 1], on every
    permutation of the index list. *)
Theorem query_count_bounds {G : Type} `{RandomSource G}
    (n : Z) (bb : general_black_box.t) :
  1 <= n -> Queryable n bb ->
  (forall (l : list Z) (w : world G),
     Permutation (range (2 ^ n)) l ->
     exists ty q, fst (classify_shuffled bb (2 ^ n) l w) = Ok (ty, q) /\
                  2 <= q <= 2 ^ (n - 1) + 1) /\
  (forall w : world G,
     exists ty q, fst (black_box_classifier bb w) = Ok (ty, q) /\
                  2 <= q <= 2 ^ (n - 1) + 1).
Proof.
  intros Hn Hq.
  assert (Hshuffled : forall (l : list Z) (w : world G),
    Permutation (range (2 ^ n)) l ->
    exists ty q, fst (classify_shuffled bb (2 ^ n) l w) = Ok (ty, q) /\
                 2 <= q <= 2 ^ (n - 1) + 1).
  { intros l w Hperm.
    destruct (classifier_outcome n Hn bb l w Hq Hperm)
      as [x0 [rest [-> [Hlen Hrun]]]].
    pose proof (pow2_pred_pos n Hn) as Hpos.
    rewrite Hrun.
    destruct (find_mismatch _ _ 1) as [p|] eqn:F.
    - apply find_mismatch_bounds in F. unfold len in F.
      rewrite length_map, length_firstn in F.
      exists 1, (p + 1). split; [reflexivity|]. lia.
    - exists 0, (2 ^ (n - 1) + 1). split; [reflexivity|]. lia. }
  split; [exact Hshuffled|]. intros w.
  destruct (classifier_via_shuffle n bb w (proj1 Hq) ltac:(lia))
    as [l [w' [_ [Hperm [_ ->]]]]].
  now apply Hshuffled.
Qed.

Lemma query_count_bounds_witness :
  1 <= 2 /\ Queryable 2 balanced_box_2 /\
  exists ty q, fst (black_box_classifier balanced_box_2 (start 1)) = Ok (ty, q) /\
               2 <= q <= 2 ^ (2 - 1) + 1.
Proof.
  assert (Hn : 1 <= 2) by lia.
  pose proof (Balanced_Queryable 2 balanced_box_2 sample_balanced_2) as Hq.
  split; [exact Hn|]. split; [exact Hq|].
  exact (proj2 (query_count_bounds (G := nat) 2 balanced_box_2 Hn Hq) (start 1)).
Defined.

(** C3. For every [n >= 1] and every constant oracle, the classifier returns
    the verdict Constant with a query count of exactly [2^(n-1) + 1], on
    every permutation of the index list; for [n = 1] it returns
    (Constant, 2). *)
Theorem constant_query_count {G : Type} `{RandomSource G}
    (n : Z) (bb : general_black_box.t) :
  1 <= n -> Constant n bb ->
  (forall (l : list Z) (w : world G),
     Permutation (range (2 ^ n)) l ->
     fst (classify_shuffled bb (2 ^ n) l w) = Ok (0, 2 ^ (n - 1) + 1)) /\
  (forall w : world G,
     fst (black_box_classifier bb w) = Ok (0, 2 ^ (n - 1) + 1)) /\
  (n = 1 -> forall w : world G, fst (black_box_classifier bb w) = Ok (0, 2)).
Proof.
  intros Hn Hc.
  assert (Hshuffled : forall (l : list Z) (w : world G),
    Permutation (range (2 ^ n)) l ->
    fst (classify_shuffled bb (2 ^ n) l w) = Ok (0, 2 ^ (n - 1) + 1)).
  { intros l w Hperm.
    destruct (classifier_outcome n Hn bb l w (Constant_Queryable n bb Hc) Hperm)
      as [x0 [rest [-> [_ Hrun]]]].
    now rewrite Hrun, (constant_no_mismatch n bb x0 _ 1 Hc). }
  assert (Hrun : forall w : world G,
    fst (black_box_classifier bb w) = Ok (0, 2 ^ (n - 1) + 1)).
  { intros w.
    destruct (classifier_via_shuffle n bb w (proj1 (proj2 Hc)) ltac:(lia))
      as [l [w' [_ [Hperm [_ ->]]]]].
    now apply Hshuffled. }
  split; [exact Hshuffled|]. split; [exact Hrun|].
  intros -> w. rewrite Hrun. reflexivity.
Qed.

Lemma constant_query_count_witness :
  1 <= 1 /\ Constant 1 constant_box_1 /\
  fst (black_box_classifier constant_box_1 (start 0)) = Ok (0, 2).
Proof.
  assert (Hn : 1 <= 1) by lia.
  split; [exact Hn|]. split; [exact sample_constant_1|].
  exact (proj2 (proj2 (constant_query_count (G := nat) 1 constant_box_1
                         Hn sample_constant_1)) eq_refl (start 0)).
Defined.

Lemma answers_outputs (bb : general_black_box.t) (l : list Z) :
  Forall (answers bb) l ->
  Forall2 (fun i o => input_output_operation bb i = Ok o) l
    (map (value bb) l).
Proof.
  induction 1 as [|x xs Hx _ IH]; constructor.
  - now apply answers_value.
  - exact IH.
Qed.

(** C4. For every [n >= 1], every balanced oracle satisfying the
    equal-counts invariant and every permutation of the index list, the
    query count the classifier returns is 1 plus the position (counted from
    0) of the first output in the permutation that differs from the first
    one, and it is at most [2^(n-1) + 1]. *)
Theorem balanced_query_count {G : Type} `{RandomSource G}
    (n : Z) (bb : general_black_box.t) :
  1 <= n -> Balanced n bb ->
  (forall (l : list Z) (w : world G),
     Permutation (range (2 ^ n)) l ->
     exists outs p,
       Forall2 (fun i o => input_output_operation bb i = Ok o) l outs /\
       first_mismatch_position outs = Some p /\
       fst (classify_shuffled bb (2 ^ n) l w) = Ok (1, 1 + p) /\
       1 + p <= 2 ^ (n - 1) + 1) /\
  (forall w : world G,
     exists l outs p,
       l = fst (shuffle_draw (range (2 ^ n)) (rng w)) /\
       Forall2 (fun i o => input_output_operation bb i = Ok o) l outs /\
       first_mismatch_position outs = Some p /\
       fst (black_box_classifier bb w) = Ok (1, 1 + p) /\
       1 + p <= 2 ^ (n - 1) + 1).
Proof.
  intros Hn Hb.
  pose proof (Balanced_Queryable n bb Hb) as Hq.
  assert (Hshuffled : forall (l : list Z) (w : world G),
    Permutation (range (2 ^ n)) l ->
    exists outs p,
      Forall2 (fun i o => input_output_operation bb i = Ok o) l outs /\
      first_mismatch_position outs = Some p /\
      fst (classify_shuffled bb (2 ^ n) l w) = Ok (1, 1 + p) /\
      1 + p <= 2 ^ (n - 1) + 1).
  { intros l w Hperm.
    pose proof (perm_answers n l Hperm bb Hq) as Hall.
    destruct (classifier_outcome n Hn bb l w Hq Hperm)
      as [x0 [rest [-> [Hlen Hrun]]]].
    destruct (balanced_mismatch n Hn bb x0 rest Hb Hperm Hlen) as [p Hp].
    exists (map (value bb) (x0 :: rest)), p.
    split; [now apply answers_outputs|]. split.
    - cbn [map first_mismatch_position].
      rewrite <- firstn_map in Hp. eapply find_mismatch_prefix. exact Hp.
    - rewrite Hrun, Hp. rewrite (Z.add_comm 1 p).
      split; [reflexivity|].
      apply find_mismatch_bounds in Hp. unfold len in Hp.
      rewrite length_map, length_firstn in Hp.
      pose proof (pow2_pred_pos n Hn). lia. }
  split; [exact Hshuffled|]. intros w.
  destruct (classifier_via_shuffle n bb w (proj1 Hq) ltac:(lia))
    as [l [w' [Hl [Hperm [_ Hrun]]]]].
  destruct (Hshuffled l w' Hperm) as [outs [p Hp]].
  exists l, outs, p. rewrite Hrun. split; [exact Hl|exact Hp].
Qed.

Lemma balanced_query_count_witness :
  1 <= 2 /\ Balanced 2 balanced_box_2 /\
  exists l outs p,
    l = fst (shuffle_draw (range (2 ^ 2)) (rng (start 1))) /\
    Forall2 (fun i o => input_output_operation balanced_box_2 i = Ok o)
      l outs /\
    first_mismatch_position outs = Some p /\
    fst (black_box_classifier balanced_box_2 (start 1)) = Ok (1, 1 + p) /\
    1 + p <= 2 ^ (2 - 1) + 1.
Proof.
  assert (Hn : 1 <= 2) by lia.
  split; [exact Hn|]. split; [exact sample_balanced_2|].
  exact (proj2 (balanced_query_count (G := nat) 2 balanced_box_2
                  Hn sample_balanced_2) (start 1)).
Defined.

(** * Construction of oracles *)

Section Construction.
Context {G : Type} `{RandomSource G}.

Lemma init_balanced_run (n : Z) (w : world G) :
  1 <= n ->
  exists bb g',
    __init__ 1 n w = (Ok bb, mkWorld g' (trace w ++ [Construct 1 n])) /\
    Balanced n bb.
Proof.
  intros Hn. unfold __init__, bind, emit, random_shuffle, draw.
  cbn [Z.eqb rng trace].
  set (k := Z.to_nat (2 ^ n / 2)).
  pose proof (shuffle_draw_perm (repeat 0 k ++ repeat 1 k) (rng w)) as Hperm.
  destruct (shuffle_draw (repeat 0 k ++ repeat 1 k) (rng w)) as [a g'].
  cbn [fst] in Hperm.
  exists (mk 1 n None (Some a)), g'. split; [reflexivity|].
  assert (Hk : Z.of_nat k = 2 ^ (n - 1)).
  { unfold k. rewrite (pow2_half n Hn).
    pose proof (pow2_pred_pos n Hn). lia. }
  repeat split. exists a. split; [reflexivity|].
  unfold len, occurrences.
  rewrite <- (Permutation_length Hperm).
  rewrite <- !(proj1 (Permutation_count_occ Z.eq_dec _ _) Hperm).
  rewrite length_app, !repeat_length, !count_occ_app.
  rewrite (count_occ_repeat_eq Z.eq_dec k (eq_refl 0)).
  rewrite (count_occ_repeat_eq Z.eq_dec k (eq_refl 1)).
  rewrite (count_occ_repeat_neq Z.eq_dec (x := 0) (y := 1) k) by lia.
  rewrite (count_occ_repeat_neq Z.eq_dec (x := 1) (y := 0) k) by lia.
  rewrite (pow2_double n Hn). repeat split; lia.
Qed.

Lemma init_constant_run (n : Z) (w : world G) :
  exists bb g',
    __init__ 0 n w = (Ok bb, mkWorld g' (trace w ++ [Construct 0 n])) /\
    Constant n bb.
Proof.
  unfold __init__, bind, emit, np_random_choice, bind, draw, lift.
  cbn [Z.eqb rng trace].
  change (len [0; 1]) with 2.
  pose proof (np_below_draw_range 2 (rng w) ltac:(lia)) as Hi.
  destruct (np_below_draw 2 (rng w)) as [i g']. cbn [fst] in Hi.
  assert (Hcase : i = 0 \/ i = 1) by lia.
  destruct Hcase as [-> | ->]; cbn [getitem].
  - exists (mk 0 n (Some 0) None), g'. split; [reflexivity|].
    repeat split. exists 0. split; [reflexivity|now left].
  - exists (mk 0 n (Some 1) None), g'. split; [reflexivity|].
    repeat split. exists 1. split; [reflexivity|now right].
Qed.
End Construction.

(** C5. For every [n >= 1], constructing a balanced oracle
    ([general_black_box] with type 1) produces an output array of length
    [2^n] holding exactly [2^(n-1)] zeros and exactly [2^(n-1)] ones,
    whatever the shuffle does. *)
Theorem balanced_construction {G : Type} `{RandomSource G}
    (n : Z) (w : world G) :
  1 <= n ->
  exists bb w' a,
    __init__ 1 n w = (Ok bb, w') /\
    output_array bb = Some a /\
    len a = 2 ^ n /\
    occurrences 0 a = 2 ^ (n - 1) /\
    occurrences 1 a = 2 ^ (n - 1).
Proof.
  intros Hn.
  destruct (init_balanced_run n w Hn)
    as [bb [g' [Hrun [_ [_ [_ [a [Ha Hcounts]]]]]]]].
  exists bb, (mkWorld g' (trace w ++ [Construct 1 n])), a.
  split; [exact Hrun|]. split; [exact Ha|exact Hcounts].
Qed.

Lemma balanced_construction_witness :
  1 <= 3 /\
  exists bb w' a,
    __init__ 1 3 (start 5) = (Ok bb, w') /\
    output_array bb = Some a /\
    len a = 2 ^ 3 /\
    occurrences 0 a = 2 ^ (3 - 1) /\
    occurrences 1 a = 2 ^ (3 - 1).
Proof.
  assert (Hn : 1 <= 3) by lia.
  split; [exact Hn|].
  exact (balanced_construction (G := nat) 3 (start 5) Hn).
Defined.

(** * Out-of-range queries *)

(** C6, as the code has it.  The query method does no validation of its
    own.  On a constant oracle it returns the fixed bit for every integer
    index, in range or not.  On a balanced oracle an index outside
    [0, 2^n) is left to the array lookup: an index [i >= 2^n] is rejected,
    with [OverflowError] when [2^63 <= i < 2^64] and with [IndexError]
    otherwise; an index [i < -2^n] is rejected with [IndexError]; an index
    [-2^n <= i < 0] is answered with the entry at [i + 2^n]. *)
Theorem out_of_range_query (n : Z) (bb : general_black_box.t) (i : Z) :
  (Constant n bb ->
   exists b, output bb = Some b /\ input_output_operation bb i = Ok b) /\
  (Balanced n bb ->
   (2 ^ n <= i ->
    input_output_operation bb i =
    Raise (if (2 ^ 63 <=? i) && (i <? 2 ^ 64) then OverflowError
           else IndexError)) /\
   (i < - 2 ^ n -> input_output_operation bb i = Raise IndexError) /\
   (- 2 ^ n <= i < 0 ->
    input_output_operation bb i = input_output_operation bb (i + 2 ^ n) /\
    answers bb (i + 2 ^ n))).
Proof.
  split.
  - intros [Hty [_ [_ [b [Hb _]]]]]. exists b. split; [exact Hb|].
    now apply constant_answers.
  - intros Hbal. pose proof (Balanced_Queryable n bb Hbal) as Hq.
    destruct Hbal as [Hty [_ [_ [a [Ha [Hlen _]]]]]].
    unfold input_output_operation. rewrite Hty, Ha. cbn [Z.eqb].
    rewrite <- Hlen. split; [|split].
    + intros Hbig. now apply np_getitem_too_large.
    + intros Hsmall. now apply np_getitem_too_small.
    + intros Hneg. split; [now apply np_getitem_negative|].
      rewrite Hlen. eapply queryable_answers; [exact Hq|]. lia.
Qed.

Lemma out_of_range_query_witness :
  Constant 1 constant_box_1 /\ Balanced 1 balanced_box_1 /\
  (exists b, output constant_box_1 = Some b /\
             input_output_operation constant_box_1 (2 ^ 63) = Ok b) /\
  input_output_operation balanced_box_1 (2 ^ 63) = Raise OverflowError /\
  input_output_operation balanced_box_1 (-3) = Raise IndexError /\
  input_output_operation balanced_box_1 (-1) =
    input_output_operation balanced_box_1 (-1 + 2 ^ 1).
Proof.
  assert (Hbig : 2 ^ 1 <= 2 ^ 63) by (vm_compute; discriminate).
  assert (Hsmall : -3 < - 2 ^ 1) by (simpl; lia).
  assert (Hneg : - 2 ^ 1 <= -1 < 0) by (simpl; lia).
  split; [exact sample_constant_1|]. split; [exact sample_balanced_1|].
  split.
  { exact (proj1 (out_of_range_query 1 constant_box_1 (2 ^ 63))
             sample_constant_1). }
  split.
  { exact (proj1 (proj2 (out_of_range_query 1 balanced_box_1 (2 ^ 63))
                    sample_balanced_1) Hbig). }
  split.
  { exact (proj1 (proj2 (proj2 (out_of_range_query 1 balanced_box_1 (-3))
                           sample_balanced_1)) Hsmall). }
  exact (proj1 (proj2 (proj2 (proj2 (out_of_range_query 1 balanced_box_1 (-1))
                                sample_balanced_1)) Hneg)).
Defined.

(** C6 fails as stated: a constant oracle answers the index 5, and a
    balanced oracle the index -1, both outside [0, 2^1). *)
Lemma out_of_range_query_answered :
  Constant 1 constant_box_1 /\ ~ (0 <= 5 < 2 ^ 1) /\
  input_output_operation constant_box_1 5 = Ok 1 /\
  Balanced 1 balanced_box_1 /\ ~ (0 <= -1 < 2 ^ 1) /\
  input_output_operation balanced_box_1 (-1) = Ok 0.
Proof.
  split; [exact sample_constant_1|]. split; [simpl; lia|].
  split; [reflexivity|]. split; [exact sample_balanced_1|].
  split; [simpl; lia|reflexivity].
Qed.

(** * Running reference against first reference *)

Section Reference.
Context {G : Type} `{RandomSource G}.
Variable bb : general_black_box.t.

Lemma for_counter_first_eq (l : list Z) (counters : list Z) :
  forall (st : loop_state) (w : world G),
  for_counter bb l counters st w = for_counter_first bb l counters st w.
Proof.
  induction counters as [|c rest IH]; intros st w; [reflexivity|].
  cbn [for_counter for_counter_first]. unfold bind, lift.
  destruct (getitem l (c + 1)) as [x|e]; [|reflexivity].
  rewrite query_run.
  destruct (input_output_operation bb x) as [o|e]; [|reflexivity].
  destruct (black_box_output_1 st =? o) eqn:E; cbn [negb]; [|reflexivity].
  apply Z.eqb_eq in E. rewrite <- E. apply IH.
Qed.

Lemma classify_first_reference_eq (N : Z) (l : list Z) (w : world G) :
  classify_shuffled bb N l w = classify_first_reference bb N l w.
Proof.
  unfold classify_shuffled, classify_first_reference, bind, lift.
  destruct (getitem l 0) as [x|e]; [|reflexivity].
  destruct (query bb x w) as [[o|e] w']; [|reflexivity].
  now rewrite for_counter_first_eq.
Qed.
End Reference.

(** C9. Overwriting the reference output with the latest output before the
    next comparison gives exactly the same result (verdict, query count,
    exception if any, generator state and trace) as comparing every queried
    output against the first queried output, for every oracle and every
    index list. *)
Theorem running_reference_is_first_reference {G : Type} `{RandomSource G}
    (bb : general_black_box.t) :
  (forall (N : Z) (l : list Z) (w : world G),
     classify_shuffled bb N l w = classify_first_reference bb N l w) /\
  (forall w : world G,
     black_box_classifier bb w = black_box_classifier_first_reference bb w).
Proof.
  split; [apply classify_first_reference_eq|]. intros w.
  unfold black_box_classifier, black_box_classifier_first_reference.
  destruct (input_bitstring_length bb <? 0); [reflexivity|].
  unfold bind. destruct (random_shuffle _ w) as [[l|e] w']; [|reflexivity].
  apply classify_first_reference_eq.
Qed.

(** * The indices the classifier queries *)

Lemma firstn_in {A : Type} (k : nat) (l : list A) (x : A) :
  In x (firstn k l) -> In x l.
Proof.
  intros Hx. rewrite <- (firstn_skipn k l). apply in_or_app. now left.
Qed.

Lemma firstn_nodup {A : Type} (k : nat) (l : list A) :
  NoDup l -> NoDup (firstn k l).
Proof.
  intros Hl. rewrite <- (firstn_skipn k l) in Hl.
  eapply NoDup_app_remove_r. exact Hl.
Qed.

Section Queries.
Context {G : Type} `{RandomSource G}.
Variable bb : general_black_box.t.

Lemma scan_cons (x : Z) (xs : list Z) (c : Z) (st : loop_state)
    (w : world G) :
  scan bb (x :: xs) c st w =
  match input_output_operation bb x with
  | Ok o =>
      if negb (black_box_output_1 st =? o) then
        (Ok (mkLoop (black_box_type st + 1) (black_box_output_1 st) (Some c)),
         log w [Query x])
      else
        scan bb xs (c + 1) (mkLoop (black_box_type st) o (Some c))
          (log w [Query x])
  | Raise e => (Raise e, log w [Query x])
  end.
Proof.
  cbn [scan]. unfold bind. rewrite query_run.
  destruct (input_output_operation bb x) as [o|e]; [|reflexivity].
  destruct (negb (black_box_output_1 st =? o)); reflexivity.
Qed.

Lemma classify_shuffled_cons (N x0 : Z) (rest : list Z) (w : world G) :
  classify_shuffled bb N (x0 :: rest) w =
  match input_output_operation bb x0 with
  | Ok o =>
      match for_counter bb (x0 :: rest) (range (N / 2)) (mkLoop 0 o None)
              (log w [Query x0]) with
      | (Ok st, w') =>
          match counter st with
          | Some c => (Ok (black_box_type st, c + 2), w')
          | None => (Raise UnboundLocalError, w')
          end
      | (Raise e, w') => (Raise e, w')
      end
  | Raise e => (Raise e, log w [Query x0])
  end.
Proof.
  unfold classify_shuffled, bind, lift.
  change (getitem (x0 :: rest) 0) with (@Ok Z x0). cbv iota beta.
  rewrite query_run.
  destruct (input_output_operation bb x0) as [o|e]; [|reflexivity].
  destruct (for_counter bb (x0 :: rest) (range (N / 2)) (mkLoop 0 o None)
              (log w [Query x0])) as [[st|e] w']; [|reflexivity].
  destruct (counter st); reflexivity.
Qed.

(** Whatever the oracle does, the walk queries a prefix of the list, and
    when it returns the loop counter is the number of queries less one. *)
Lemma scan_queries (xs : list Z) :
  forall (c : Z) (st : loop_state) (w : world G),
  exists m : nat,
    (m <= List.length xs)%nat /\
    snd (scan bb xs c st w) = log w (map Query (firstn m xs)) /\
    forall st', fst (scan bb xs c st w) = Ok st' ->
      counter st' =
      match m with
      | O => counter st
      | S m' => Some (c + Z.of_nat m')
      end.
Proof.
  induction xs as [|x xs' IH]; intros c st w.
  - exists 0%nat. cbn [scan firstn map]. unfold ret. cbn [fst snd].
    rewrite log_nil. split; [reflexivity|]. split; [reflexivity|].
    intros st' E. now injection E as <-.
  - rewrite scan_cons.
    destruct (input_output_operation bb x) as [o|e].
    + destruct (negb (black_box_output_1 st =? o)).
      * exists 1%nat. cbn [fst snd firstn map List.length].
        split; [lia|]. split; [reflexivity|].
        intros st' E. injection E as <-.
        cbn [counter]. f_equal. lia.
      * destruct (IH (c + 1)
                    (mkLoop (black_box_type st) o (Some c))
                    (log w [Query x])) as [m [Hm [Htr Hcnt]]].
        exists (S m). rewrite Htr, log_log. cbn [List.length].
        split; [lia|]. split; [reflexivity|].
        intros st' E. rewrite (Hcnt st' E). cbn [counter].
        destruct m as [|m']; f_equal; lia.
    + exists 1%nat. cbn [fst snd firstn map List.length].
      split; [lia|]. split; [reflexivity|].
      intros st' E. discriminate E.
Qed.

Lemma classify_shuffled_queries (N x0 : Z) (rest : list Z) (w : world G) :
  (Z.to_nat (N / 2) <= List.length rest)%nat ->
  exists m : nat,
    (m <= Z.to_nat (N / 2))%nat /\
    snd (classify_shuffled bb N (x0 :: rest) w) =
      log w (map Query (firstn (S m) (x0 :: rest))) /\
    forall ty q, fst (classify_shuffled bb N (x0 :: rest) w) = Ok (ty, q) ->
      q = Z.of_nat (S m).
Proof.
  intros Hlen. rewrite classify_shuffled_cons.
  destruct (input_output_operation bb x0) as [o|e].
  - rewrite range_seq.
    rewrite for_counter_scan by (cbn [List.length]; lia).
    change (skipn 1 (x0 :: rest)) with rest.
    destruct (scan_queries (firstn (Z.to_nat (N / 2)) rest)
                (Z.of_nat 0) (mkLoop 0 o None) (log w [Query x0]))
      as [m [Hm [Htr Hcnt]]].
    rewrite length_firstn in Hm.
    exists m. split; [lia|].
    destruct (scan bb (firstn (Z.to_nat (N / 2)) rest) (Z.of_nat 0)
                (mkLoop 0 o None) (log w [Query x0])) as [[st'|e] w'];
      cbn [snd] in Htr; subst w'; rewrite log_log, firstn_firstn;
      rewrite Nat.min_l by lia.
    + specialize (Hcnt st' eq_refl). cbn [counter] in Hcnt.
      rewrite Hcnt. destruct m as [|m'].
      * cbn [fst snd]. split; [reflexivity|].
        intros ty q E. discriminate E.
      * cbn [fst snd]. split; [reflexivity|].
        intros ty q E. injection E as _ <-. lia.
    + cbn [fst snd]. split; [reflexivity|]. intros ty q E. discriminate E.
  - exists 0%nat. cbn [fst snd firstn map]. split; [lia|].
    split; [reflexivity|]. intros ty q E. discriminate E.
Qed.
End Queries.

(** C10. For every [n >= 1] the indices the classifier passes to the
    oracle's query method are a prefix, of length at most [2^(n-1) + 1], of
    a permutation of [0 .. 2^n - 1]: they are duplicate-free and lie in
    [0, 2^n), so a balanced oracle's array lookup is in bounds, and the
    query count returned is the number of these distinct queries. *)
Theorem queried_indices_distinct_in_range {G : Type} `{RandomSource G}
    (n : Z) (bb : general_black_box.t) :
  1 <= n -> input_bitstring_length bb = n ->
  (forall (l : list Z) (w : world G),
     Permutation (range (2 ^ n)) l ->
     exists qs,
       queries (trace (snd (classify_shuffled bb (2 ^ n) l w))) =
         queries (trace w) ++ qs /\
       qs = firstn (List.length qs) l /\
       1 <= len qs <= 2 ^ (n - 1) + 1 /\
       NoDup qs /\
       Forall (fun i => 0 <= i < 2 ^ n) qs /\
       (forall a, output_array bb = Some a -> len a = 2 ^ n ->
                  Forall (fun i => 0 <= i < len a) qs) /\
       (forall ty q, fst (classify_shuffled bb (2 ^ n) l w) = Ok (ty, q) ->
                     q = len qs)) /\
  (forall w : world G,
     exists qs,
       queries (trace (snd (black_box_classifier bb w))) =
         queries (trace w) ++ qs /\
       qs = firstn (List.length qs)
              (fst (shuffle_draw (range (2 ^ n)) (rng w))) /\
       1 <= len qs <= 2 ^ (n - 1) + 1 /\
       NoDup qs /\
       Forall (fun i => 0 <= i < 2 ^ n) qs /\
       (forall a, output_array bb = Some a -> len a = 2 ^ n ->
                  Forall (fun i => 0 <= i < len a) qs) /\
       (forall ty q, fst (black_box_classifier bb w) = Ok (ty, q) ->
                     q = len qs)).
Proof.
  intros Hn Hbits.
  assert (Hshuffled : forall (l : list Z) (w : world G),
    Permutation (range (2 ^ n)) l ->
    exists qs,
      queries (trace (snd (classify_shuffled bb (2 ^ n) l w))) =
        queries (trace w) ++ qs /\
      qs = firstn (List.length qs) l /\
      1 <= len qs <= 2 ^ (n - 1) + 1 /\
      NoDup qs /\
      Forall (fun i => 0 <= i < 2 ^ n) qs /\
      (forall a, output_array bb = Some a -> len a = 2 ^ n ->
                 Forall (fun i => 0 <= i < len a) qs) /\
      (forall ty q, fst (classify_shuffled bb (2 ^ n) l w) = Ok (ty, q) ->
                    q = len qs)).
  { intros l w Hperm.
    pose proof (perm_nodup n l Hperm) as Hnodup.
    assert (Hin : forall i, In i l -> 0 <= i < 2 ^ n)
      by (intros i; apply (perm_in_range n l Hperm)).
    destruct (perm_cons n Hn l Hperm) as [x0 [rest [-> Hlen]]].
    destruct (classify_shuffled_queries bb (2 ^ n) x0 rest w Hlen)
      as [m [Hm [Htr Hcnt]]].
    rewrite (pow2_half n Hn) in Hm, Hlen.
    pose proof (pow2_pred_pos n Hn) as Hpos.
    assert (Hqlen : List.length (firstn (S m) (x0 :: rest)) = S m)
      by (rewrite length_firstn; cbn [List.length]; lia).
    assert (Hrange : Forall (fun i => 0 <= i < 2 ^ n)
                       (firstn (S m) (x0 :: rest))).
    { apply Forall_forall. intros i Hi. apply Hin.
      eapply firstn_in. exact Hi. }
    exists (firstn (S m) (x0 :: rest)).
    rewrite Htr. unfold log. cbn [trace].
    rewrite queries_app, queries_map_Query. unfold len. rewrite Hqlen.
    split; [reflexivity|]. split; [reflexivity|]. split; [lia|].
    split; [now apply firstn_nodup|]. split; [exact Hrange|].
    split; [|exact Hcnt].
    intros a _ Ha. rewrite Ha. exact Hrange. }
  split; [exact Hshuffled|]. intros w.
  destruct (classifier_via_shuffle n bb w Hbits ltac:(lia))
    as [l [w' [Hl [Hperm [Htr Hrun]]]]].
  rewrite Hrun, <- Hl, <- Htr. now apply Hshuffled.
Qed.

Lemma queried_indices_distinct_in_range_witness :
  1 <= 2 /\ input_bitstring_length balanced_box_2 = 2 /\
  exists qs,
    queries (trace (snd (black_box_classifier balanced_box_2 (start 1)))) =
      queries (trace (start 1)) ++ qs /\
    qs = firstn (List.length qs)
           (fst (shuffle_draw (range (2 ^ 2)) (rng (start 1)))) /\
    1 <= len qs <= 2 ^ (2 - 1) + 1 /\
    NoDup qs /\
    Forall (fun i => 0 <= i < 2 ^ 2) qs /\
    (forall a, output_array balanced_box_2 = Some a -> len a = 2 ^ 2 ->
               Forall (fun i => 0 <= i < len a) qs) /\
    (forall ty q,
       fst (black_box_classifier balanced_box_2 (start 1)) = Ok (ty, q) ->
       q = len qs).
Proof.
  assert (Hn : 1 <= 2) by lia.
  split; [exact Hn|]. split; [reflexivity|].
  exact (proj2 (queried_indices_distinct_in_range (G := nat) 2 balanced_box_2
                  Hn eq_refl) (start 1)).
Defined.

(** * The trial harness *)

Section Trials.
Context {G : Type} `{RandomSource G}.

Lemma random_choice_pair {A : Type} (a b : A) (w : world G) :
  exists g',
    random_choice [a; b] w =
    (Ok (if fst (below_draw 2 (rng w)) =? 0 then a else b),
     mkWorld g' (trace w)).
Proof.
  unfold random_choice, bind, draw, lift. change (len [a; b]) with 2.
  pose proof (below_draw_range 2 (rng w) ltac:(lia)) as Hi.
  destruct (below_draw 2 (rng w)) as [i g']. cbn [fst] in *.
  exists g'. assert (Hcase : i = 0 \/ i = 1) by lia.
  destruct Hcase as [-> | ->]; reflexivity.
Qed.

(** [random.choice] returns the entry at the position it draws. *)
Lemma random_choice_by_draw {A : Type} (l : list A) (w : world G) :
  l <> [] ->
  random_choice l w =
  (getitem l (fst (below_draw (len l) (rng w))),
   mkWorld (snd (below_draw (len l) (rng w))) (trace w)).
Proof.
  intros Hne. destruct l as [|a l']; [now contradiction Hne|].
  unfold random_choice, bind, draw, lift.
  destruct (below_draw (len (a :: l')) (rng w)) as [i g']. reflexivity.
Qed.

(** On a queryable oracle the classifier returns and logs only queries. *)
Lemma classifier_returns (n : Z) (bb : general_black_box.t) (w : world G) :
  1 <= n -> Queryable n bb ->
  exists ty q g' qs,
    black_box_classifier bb w =
    (Ok (ty, q), mkWorld g' (trace w ++ map Query qs)).
Proof.
  intros Hn Hq.
  destruct (classifier_via_shuffle n bb w (proj1 Hq) ltac:(lia))
    as [l [w' [_ [Hperm [Htr ->]]]]].
  destruct (classifier_outcome n Hn bb l w' Hq Hperm)
    as [x0 [rest [-> [_ ->]]]].
  unfold log. rewrite Htr.
  destruct (find_mismatch _ _ 1); repeat eexists.
Qed.

Variable n : Z.
Hypothesis n_pos : 1 <= n.
Variables black_box_1 black_box_2 : general_black_box.t.
Hypothesis box_1_ok : Queryable n black_box_1.
Hypothesis box_2_ok : Queryable n black_box_2.

Lemma trial_loop_run (tests : list Z) :
  forall (outs types : list Z) (w : world G),
  exists outs' types' g' evs,
    trial_loop black_box_1 black_box_2 tests outs types w =
      (Ok (outs ++ outs', types ++ types'),
       mkWorld g' (trace w ++ evs)) /\
    List.length outs' = List.length tests /\
    List.length types' = List.length tests /\
    constructions evs = [] /\
    plots evs = [] /\
    Forall2 (is_trial black_box_1 black_box_2) types' outs'.
Proof.
  induction tests as [|i rest IH]; intros outs types w.
  - exists [], [], (rng w), []. cbn [trial_loop]. unfold ret.
    rewrite !app_nil_r. destruct w. repeat split. constructor.
  - destruct (random_choice_pair black_box_1 black_box_2 w) as [g1 Hpick].
    set (pick := if fst (below_draw 2 (rng w)) =? 0
                 then black_box_1 else black_box_2) in *.
    assert (Hq : Queryable n pick)
      by (unfold pick; destruct (_ =? 0); assumption).
    destruct (classifier_returns n pick (mkWorld g1 (trace w)) n_pos Hq)
      as [ty [q [g2 [qs Hrun]]]]. cbn [trace] in Hrun.
    set (warn := if negb (type pick =? ty)
                 then [Print "Black box misclassified!"] else []).
    destruct (IH (outs ++ [q]) (types ++ [ty])
                (mkWorld g2 ((trace w ++ map Query qs) ++ warn)))
      as [outs' [types' [g' [evs [Hloop [Ho [Ht [Hc [Hp Htrials]]]]]]]]].
    exists (q :: outs'), (ty :: types'), g', (map Query qs ++ warn ++ evs).
    split.
    + cbn [trial_loop]. unfold bind. rewrite Hpick, Hrun.
      cbn [trace] in Hloop.
      replace (outs ++ q :: outs') with ((outs ++ [q]) ++ outs')
        by now rewrite <- app_assoc.
      replace (types ++ ty :: types') with ((types ++ [ty]) ++ types')
        by now rewrite <- app_assoc.
      replace (trace w ++ map Query qs ++ warn ++ evs)
        with (((trace w ++ map Query qs) ++ warn) ++ evs)
        by now rewrite <- !app_assoc.
      rewrite <- Hloop. unfold warn.
      destruct (negb (type pick =? ty)).
      * reflexivity.
      * unfold ret. now rewrite app_nil_r.
    + cbn [List.length]. split; [now rewrite Ho|]. split; [now rewrite Ht|].
      rewrite !constructions_app, !plots_app, Hc, Hp.
      rewrite constructions_map_Query, plots_map_Query.
      split; [|split].
      * unfold warn. now destruct (negb (type pick =? ty)).
      * unfold warn. now destruct (negb (type pick =? ty)).
      * constructor; [|exact Htrials].
        exists w, (mkWorld g1 (trace w)), pick.
        split; [reflexivity|]. split; [exact Hpick|].
        now rewrite Hrun.
Qed.
End Trials.

Lemma test_black_box_classifier_run {G : Type} `{RandomSource G}
    (n t : Z) (w : world G) :
  1 <= n -> 0 <= t ->
  exists bb1 bb2 w1 w2 outs types w' evs,
    __init__ 1 n w = (Ok bb1, w1) /\ Balanced n bb1 /\
    __init__ 0 n w1 = (Ok bb2, w2) /\ Constant n bb2 /\
    test_black_box_classifier n t w = (Ok (outs, types), w') /\
    trace w' = trace w ++ [Construct 1 n; Construct 0 n] ++ evs /\
    constructions evs = [] /\ plots evs = [] /\
    len outs = t /\ len types = t /\
    Forall2 (is_trial bb1 bb2) types outs.
Proof.
  intros Hn Ht.
  destruct (init_balanced_run n w Hn) as [bb1 [g1 [Hinit1 Hbal]]].
  destruct (init_constant_run n (mkWorld g1 (trace w ++ [Construct 1 n])))
    as [bb2 [g2 [Hinit2 Hconst]]].
  cbn [trace] in Hinit2.
  destruct (trial_loop_run n Hn bb1 bb2 (Balanced_Queryable n bb1 Hbal)
              (Constant_Queryable n bb2 Hconst) (range t) [] []
              (mkWorld g2 ((trace w ++ [Construct 1 n]) ++ [Construct 0 n])))
    as [outs [types [g' [evs [Hloop [Ho [Hty [Hc [Hp Htrials]]]]]]]]].
  cbn [trace app] in Hloop. rewrite range_length in Ho, Hty.
  eexists bb1, bb2, _, _, outs, types, _, evs.
  split; [exact Hinit1|]. split; [exact Hbal|].
  split; [exact Hinit2|]. split; [exact Hconst|].
  split.
  { unfold test_black_box_classifier, bind. rewrite Hinit1, Hinit2.
    exact Hloop. }
  cbn [trace]. split; [now rewrite <- !app_assoc|].
  split; [exact Hc|]. split; [exact Hp|].
  unfold len. split; [lia|]. split; [lia|exact Htrials].
Qed.



(** * The scaling driver *)

Section Scaling.
Context {G : Type} `{RandomSource G}.
Variable trials : Z.
Hypothesis trials_pos : 1 <= trials.

Lemma np_mean_real (outs : list Z) :
  len outs = trials ->
  np_mean outs = Real (sum outs # Z.to_pos trials).
Proof.
  intros Hlen. destruct outs as [|o outs].
  - unfold len in Hlen. simpl in Hlen. lia.
  - unfold np_mean. now rewrite Hlen.
Qed.

Lemma scaling_loop_run (lengths : list Z) :
  forall (avg : list npfloat) (w : world G),
  Forall (fun i => 0 <= i) lengths ->
  exists means g' evs,
    scaling_loop lengths trials avg w =
      (Ok (avg ++ means), mkWorld g' (trace w ++ evs)) /\
    plots evs = [] /\
    Forall2 (fun i y => is_mean_point trials (i + 1) y) lengths means.
Proof.
  induction lengths as [|i rest IH]; intros avg w Hall.
  - exists [], (rng w), []. cbn [scaling_loop]. unfold ret.
    rewrite !app_nil_r. destruct w. repeat split. constructor.
  - inversion Hall as [|? ? Hi Hrest]; subst.
    destruct (test_black_box_classifier_run (i + 1) trials w
                ltac:(lia) ltac:(lia))
      as [bb1 [bb2 [w1 [w2 [outs [types [w' [evs Hrun]]]]]]]].
    destruct Hrun as [_ [_ [_ [_ [Hrun [Htr [_ [Hp [Hlen _]]]]]]]]].
    destruct (IH (avg ++ [np_mean outs]) w' Hrest)
      as [means [g' [evs' [Hloop [Hp' Hpoints]]]]].
    exists (np_mean outs :: means), g',
      (([Construct 1 (i + 1); Construct 0 (i + 1)] ++ evs) ++ evs').
    split; [|split].
    + cbn [scaling_loop]. unfold bind. rewrite Hrun, Hloop, Htr.
      now rewrite <- !app_assoc.
    + rewrite !plots_app, Hp, Hp'. reflexivity.
    + constructor; [|exact Hpoints].
      exists w, w', outs, types. split; [exact Hrun|].
      split; [exact Hlen|]. now apply np_mean_real.
Qed.
End Scaling.

Lemma range_nth (k : Z) (j : nat) :
  (j < Z.to_nat k)%nat ->
  nth j (map (fun i => i + 1) (range k)) 0 = Z.of_nat j + 1.
Proof.
  intros Hj. unfold range. rewrite map_map.
  rewrite (nth_indep _ 0 (Z.of_nat 0 + 1)) by (rewrite length_map, length_seq; lia).
  rewrite (map_nth (fun i => Z.of_nat i + 1) (seq 0 (Z.to_nat k)) 0%nat j).
  rewrite seq_nth by lia. reflexivity.
Qed.

(** C7, as the code has it.  For every [max_n >= 1] and [trials_per_n >= 1]
    the scaling driver returns nothing.  What it builds is handed to the
    plotting collaborator in its one [plot] call: the bit lengths
    [1 .. max_n] in increasing order and, in step with them, exactly
    [max_n] means, each the arithmetic mean of the [trials_per_n] query
    counts the harness recorded for that bit length. *)
Theorem scaling_driver_plots_curve {G : Type} `{RandomSource G}
    (max_n trials_per_n : Z) (w : world G) :
  1 <= max_n -> 1 <= trials_per_n ->
  exists w' pre xs ys,
    average_output_number_scaling max_n trials_per_n w = (Ok tt, w') /\
    trace w' = trace w ++ pre ++ plot_calls max_n ys /\
    plots pre = [] /\
    plots (trace w') = plots (trace w) ++ [(xs, ys)] /\
    len xs = max_n /\ len ys = max_n /\
    (forall j : nat, (j < Z.to_nat max_n)%nat -> nth j xs 0 = Z.of_nat j + 1) /\
    Forall2 (is_mean_point trials_per_n) xs ys.
Proof.
  intros Hmax Htrials.
  assert (Hall : Forall (fun i => 0 <= i) (range max_n))
    by (apply Forall_forall; intros i Hi; apply in_range in Hi; lia).
  destruct (scaling_loop_run trials_per_n Htrials (range max_n) [] w Hall)
    as [ys [g' [pre [Hloop [Hpre Hpoints]]]]].
  cbn [app] in Hloop.
  exists (mkWorld g' ((trace w ++ pre) ++ plot_calls max_n ys)), pre,
    (map (fun i => i + 1) (range max_n)), ys.
  split.
  { unfold average_output_number_scaling, bind. rewrite Hloop.
    unfold emit, plot_calls. cbn [rng trace]. now rewrite <- !app_assoc. }
  cbn [trace]. split; [now rewrite <- app_assoc|]. split; [exact Hpre|].
  split; [rewrite !plots_app, Hpre, app_nil_r; reflexivity|].
  split; [unfold len; rewrite length_map, range_length; lia|].
  split.
  { unfold len. rewrite <- (Forall2_length Hpoints), range_length. lia. }
  split; [intros j Hj; now apply range_nth|].
  clear Hloop Hall. revert Hpoints. generalize (range max_n) as lengths.
  intros lengths Hpoints.
  induction Hpoints; cbn [map]; constructor; assumption.
Qed.

Lemma scaling_driver_plots_curve_witness :
  1 <= 2 /\ 1 <= 2 /\
  exists w' pre xs ys,
    average_output_number_scaling 2 2 (start 5) = (Ok tt, w') /\
    trace w' = trace (start 5) ++ pre ++ plot_calls 2 ys /\
    plots pre = [] /\
    plots (trace w') = plots (trace (start 5)) ++ [(xs, ys)] /\
    len xs = 2 /\ len ys = 2 /\
    (forall j : nat, (j < Z.to_nat 2)%nat -> nth j xs 0 = Z.of_nat j + 1) /\
    Forall2 (is_mean_point 2) xs ys.
Proof.
  assert (Hn : 1 <= 2) by lia.
  split; [exact Hn|]. split; [exact Hn|].
  exact (scaling_driver_plots_curve (G := nat) 2 2 (start 5) Hn Hn).
Defined.

(** C7 fails as stated: the driver returns no sequence.  Run for
    [max_n = 2] with 2 trials per length it returns [None], and the two
    points of the curve go to the plotting library instead. *)
Lemma scaling_driver_returns_none :
  fst (average_output_number_scaling 2 2 (start 5)) = Ok tt /\
  plots (trace (snd (average_output_number_scaling 2 2 (start 5)))) =
  [([1; 2], [Real (4 # 2); Real (6 # 2)])].
Proof. split; reflexivity. Qed.

(** * Further properties of the classifier *)

Lemma find_mismatch_witness (ref : Z) (outs : list Z) (pos p : Z) :
  find_mismatch ref outs pos = Some p ->
  exists o, nth_error outs (Z.to_nat (p - pos)) = Some o /\ o <> ref.
Proof.
  revert pos. induction outs as [|o outs IH]; intros pos Hp; simpl in Hp.
  - discriminate.
  - destruct (ref =? o) eqn:E.
    + pose proof (find_mismatch_bounds _ _ _ _ Hp) as Hb.
      destruct (IH _ Hp) as [o' [Hnth Hne]]. exists o'. split; [|exact Hne].
      replace (Z.to_nat (p - pos)) with (S (Z.to_nat (p - (pos + 1)))) by lia.
      exact Hnth.
    + injection Hp as <-. exists o. rewrite Z.sub_diag. split; [reflexivity|].
      apply Z.eqb_neq in E. congruence.
Qed.

Section Full.
Context {G : Type} `{RandomSource G}.
Variable n : Z.
Hypothesis n_pos : 1 <= n.
Variable bb : general_black_box.t.
Hypothesis bb_ok : Queryable n bb.

(** Everything a run of the classifier on a queryable oracle does: the
    generator is advanced by one shuffle of the index list, the trace
    grows by the queries of the first [q] entries of the shuffled list and
    nothing else, verdict 0 comes with the full count and equal outputs at
    all queried indices, verdict 1 with a queried index whose output
    differs from the first one. *)
Lemma classifier_full (w : world G) :
  exists x0 rest ty q qs,
    fst (shuffle_draw (range (2 ^ n)) (rng w)) = x0 :: rest /\
    black_box_classifier bb w =
      (Ok (ty, q),
       mkWorld (snd (shuffle_draw (range (2 ^ n)) (rng w)))
         (trace w ++ map Query qs)) /\
    qs = firstn (Z.to_nat q) (x0 :: rest) /\
    len qs = q /\
    2 <= q <= 2 ^ (n - 1) + 1 /\
    (ty = 0 \/ ty = 1) /\
    (ty = 0 ->
     q = 2 ^ (n - 1) + 1 /\ Forall (fun i => value bb i = value bb x0) qs) /\
    (ty = 1 -> exists j, In j qs /\ value bb j <> value bb x0) /\
    (Constant n bb -> ty = 0) /\
    (Balanced n bb -> ty = 1).
Proof.
  pose proof (pow2_pred_pos n n_pos) as Hpos.
  pose proof (shuffle_draw_perm (range (2 ^ n)) (rng w)) as Hperm.
  rewrite black_box_classifier_run by (rewrite (proj1 bb_ok); lia).
  rewrite (proj1 bb_ok).
  remember (fst (shuffle_draw (range (2 ^ n)) (rng w))) as l eqn:Hl.
  remember (snd (shuffle_draw (range (2 ^ n)) (rng w))) as g' eqn:Hg.
  destruct (classifier_outcome n n_pos bb l (mkWorld g' (trace w)) bb_ok Hperm)
    as [x0 [rest [-> [Hlen Hrun]]]].
  exists x0, rest. rewrite Hrun. unfold log. cbn [rng trace].
  set (K := Z.to_nat (2 ^ (n - 1))) in *.
  destruct (find_mismatch (value bb x0) (map (value bb) (firstn K rest)) 1)
    as [p|] eqn:F.
  - pose proof (find_mismatch_bounds _ _ _ _ F) as Hb.
    unfold len in Hb. rewrite length_map, length_firstn in Hb.
    destruct (find_mismatch_witness _ _ _ _ F) as [o [Hnth Hne]].
    exists 1, (p + 1), (x0 :: firstn (Z.to_nat p) (firstn K rest)).
    split; [reflexivity|]. split; [reflexivity|].
    split.
    { replace (Z.to_nat (p + 1)) with (S (Z.to_nat p)) by lia.
      cbn [firstn]. f_equal. rewrite firstn_firstn.
      f_equal. lia. }
    split.
    { unfold len. cbn [List.length]. rewrite !length_firstn. lia. }
    split; [lia|]. split; [now right|]. split; [intros E; discriminate E|].
    split.
    { intros _. rewrite nth_error_map in Hnth.
      destruct (nth_error (firstn K rest) (Z.to_nat (p - 1))) as [j|] eqn:Hj;
        [|discriminate].
      injection Hnth as <-. exists j. split; [|exact Hne].
      right. apply nth_error_In with (n := Z.to_nat (p - 1)).
      rewrite nth_error_firstn. 
      replace (Z.to_nat (p - 1) <? Z.to_nat p)%nat with true
        by (symmetry; apply Nat.ltb_lt; lia).
      exact Hj. }
    split; [|reflexivity].
    intros Hc. rewrite (constant_no_mismatch n bb x0 _ 1 Hc) in F.
    discriminate F.
  - exists 0, (2 ^ (n - 1) + 1), (x0 :: firstn K rest).
    split; [reflexivity|]. split; [reflexivity|].
    split.
    { replace (Z.to_nat (2 ^ (n - 1) + 1)) with (S K) by (unfold K; lia).
      reflexivity. }
    split.
    { unfold len. cbn [List.length]. rewrite length_firstn. unfold K in *. lia. }
    split; [lia|]. split; [now left|]. split.
    { intros _. split; [reflexivity|]. constructor; [reflexivity|].
      apply find_mismatch_none in F. rewrite Forall_map in F.
      eapply Forall_impl; [|exact F]. intros a Ha. now symmetry. }
    split; [intros E; discriminate E|]. split; [reflexivity|].
    intros Hb. destruct (balanced_mismatch n n_pos bb x0 rest Hb Hperm Hlen)
      as [p Hp]. fold K in Hp. rewrite Hp in F. discriminate F.
Qed.
End Full.

(** X1. Whatever a queryable oracle computes (balanced, constant or
    neither), a verdict of the classifier is backed by what it saw: verdict
    1 by two indices in range with different outputs, verdict 0 by
    [2^(n-1) + 1] distinct indices in range that all give the same output,
    so that the oracle cannot be balanced. *)
Theorem verdict_is_justified {G : Type} `{RandomSource G}
    (n : Z) (bb : general_black_box.t) (w : world G) :
  1 <= n -> Queryable n bb ->
  exists ty q,
    fst (black_box_classifier bb w) = Ok (ty, q) /\
    (ty = 0 \/ ty = 1) /\
    (ty = 1 ->
     exists i j a b,
       0 <= i < 2 ^ n /\ 0 <= j < 2 ^ n /\
       input_output_operation bb i = Ok a /\
       input_output_operation bb j = Ok b /\ a <> b) /\
    (ty = 0 ->
     exists v qs,
       NoDup qs /\ len qs = 2 ^ (n - 1) + 1 /\
       Forall (fun i => 0 <= i < 2 ^ n /\
                        input_output_operation bb i = Ok v) qs).
Proof.
  intros Hn Hq.
  pose proof (shuffle_draw_perm (range (2 ^ n)) (rng w)) as Hperm.
  destruct (classifier_full n Hn bb Hq w)
    as [x0 [rest [ty [q [qs [Hl [Hrun [Hqs [Hlen [_ [Hty [H0 [H1 _]]]]]]]]]]]]].
  rewrite Hl in Hperm.
  assert (Hin : forall i, In i qs -> In i (x0 :: rest))
    by (intros i Hi; rewrite Hqs in Hi; eapply firstn_in; exact Hi).
  assert (Hans : forall i, In i (x0 :: rest) ->
    0 <= i < 2 ^ n /\ input_output_operation bb i = Ok (value bb i)).
  { intros i Hi. pose proof (perm_in_range n _ Hperm i Hi) as Hr.
    split; [exact Hr|]. apply answers_value.
    eapply queryable_answers; [exact Hq|exact Hr]. }
  exists ty, q. rewrite Hrun. split; [reflexivity|]. split; [exact Hty|].
  split.
  - intros E. destruct (H1 E) as [j [Hj Hne]].
    destruct (Hans x0 (or_introl eq_refl)) as [Hr0 Ha0].
    destruct (Hans j (Hin j Hj)) as [Hrj Haj].
    exists j, x0, (value bb j), (value bb x0). tauto.
  - intros E. destruct (H0 E) as [Hq' Hall].
    exists (value bb x0), qs. split.
    + rewrite Hqs. apply firstn_nodup. exact (perm_nodup n _ Hperm).
    + split; [lia|]. apply Forall_forall. intros i Hi.
      destruct (Hans i (Hin i Hi)) as [Hr Ha]. split; [exact Hr|].
      rewrite Forall_forall in Hall. rewrite <- (Hall i Hi). exact Ha.
Qed.

Lemma verdict_is_justified_witness :
  1 <= 2 /\ Queryable 2 unbalanced_box_2 /\
  exists ty q,
    fst (black_box_classifier unbalanced_box_2 (start 0)) = Ok (ty, q) /\
    (ty = 0 \/ ty = 1) /\
    (ty = 1 ->
     exists i j a b,
       0 <= i < 2 ^ 2 /\ 0 <= j < 2 ^ 2 /\
       input_output_operation unbalanced_box_2 i = Ok a /\
       input_output_operation unbalanced_box_2 j = Ok b /\ a <> b) /\
    (ty = 0 ->
     exists v qs,
       NoDup qs /\ len qs = 2 ^ (2 - 1) + 1 /\
       Forall (fun i => 0 <= i < 2 ^ 2 /\
                        input_output_operation unbalanced_box_2 i = Ok v) qs).
Proof.
  assert (Hn : 1 <= 2) by lia.
  assert (Hq : Queryable 2 unbalanced_box_2).
  { split; [reflexivity|]. right. split; [discriminate|].
    exists [7; 7; 7; 0]. split; reflexivity. }
  split; [exact Hn|]. split; [exact Hq|].
  exact (verdict_is_justified (G := nat) 2 unbalanced_box_2 (start 0) Hn Hq).
Defined.

(** X2. For every oracle and every bit length the classifier's only
    effects are one shuffle of the index list (none when the bit length is
    negative) and queries of the oracle: it constructs, prints and plots
    nothing, and the queried indices are distinct. *)
Theorem classifier_only_queries {G : Type} `{RandomSource G}
    (bb : general_black_box.t) (w : world G) :
  exists qs,
    snd (black_box_classifier bb w) =
      mkWorld
        (if input_bitstring_length bb <? 0 then rng w
         else snd (shuffle_draw (range (2 ^ input_bitstring_length bb))
                     (rng w)))
        (trace w ++ map Query qs) /\
    NoDup qs /\
    Forall (fun i => 0 <= i < 2 ^ input_bitstring_length bb) qs.
Proof.
  destruct (input_bitstring_length bb <? 0) eqn:Hneg.
  - exists []. unfold black_box_classifier. rewrite Hneg. unfold raise.
    cbn [snd map]. rewrite app_nil_r. destruct w. repeat split; constructor.
  - apply Z.ltb_ge in Hneg. rewrite black_box_classifier_run by exact Hneg.
    set (n := input_bitstring_length bb) in *.
    pose proof (shuffle_draw_perm (range (2 ^ n)) (rng w)) as Hperm.
    remember (fst (shuffle_draw (range (2 ^ n)) (rng w))) as l eqn:Hl.
    remember (snd (shuffle_draw (range (2 ^ n)) (rng w))) as g' eqn:Hg.
    pose proof (Permutation_NoDup Hperm (range_nodup _)) as Hnodup.
    assert (Hin : forall i, In i l -> 0 <= i < 2 ^ n).
    { intros i Hi. apply in_range.
      eapply Permutation_in; [symmetry; exact Hperm|exact Hi]. }
    assert (Hcons : exists x0 rest, l = x0 :: rest /\
              (Z.to_nat (2 ^ n / 2) <= List.length rest)%nat).
    { destruct (Z.eq_dec n 0) as [E|E].
      - rewrite E in *. change (2 ^ 0) with 1 in *.
        change (range 1) with [0] in Hperm.
        apply Permutation_length_1_inv in Hperm.
        exists 0, []. split; [exact Hperm|]. simpl. lia.
      - apply (perm_cons n ltac:(lia) l Hperm). }
    destruct Hcons as [x0 [rest [-> Hlen]]].
    destruct (classify_shuffled_queries bb (2 ^ n) x0 rest
                (mkWorld g' (trace w)) Hlen) as [m [_ [Htr _]]].
    exists (firstn (S m) (x0 :: rest)). rewrite Htr. split; [reflexivity|].
    split; [now apply firstn_nodup|].
    apply Forall_forall. intros i Hi. apply Hin. eapply firstn_in. exact Hi.
Qed.

Lemma classifier_length_zero {G : Type} `{RandomSource G}
    (bb : general_black_box.t) (w : world G) :
  input_bitstring_length bb = 0 ->
  black_box_classifier bb w =
  (match input_output_operation bb 0 with
   | Ok _ => Raise UnboundLocalError
   | Raise e => Raise e
   end,
   mkWorld (snd (shuffle_draw (range 1) (rng w))) (trace w ++ [Query 0])).
Proof.
  intros Hz. rewrite black_box_classifier_run by lia. rewrite Hz.
  change (2 ^ 0) with 1.
  pose proof (shuffle_draw_perm (range 1) (rng w)) as Hperm.
  change (range 1) with [0] in *.
  apply Permutation_length_1_inv in Hperm. rewrite Hperm.
  rewrite classify_shuffled_cons. change (range (1 / 2)) with (@nil Z).
  cbn [for_counter]. unfold ret, log. cbn [counter rng trace].
  destruct (input_output_operation bb 0); reflexivity.
Qed.



(** * Further properties of the oracle *)

Lemma pow2_half_short (n : Z) : n <= 0 -> 2 ^ n / 2 = 0.
Proof.
  intros Hn. destruct (Z.eq_dec n 0) as [->|Hne]; [reflexivity|].
  rewrite Z.pow_neg_r by lia. reflexivity.
Qed.

Lemma filter_count (g : Z -> Z) (v : Z) (l : list Z) :
  List.length (filter (fun i => g i =? v) l) =
  count_occ Z.eq_dec (map g l) v.
Proof.
  induction l as [|x l IH]; [reflexivity|]. cbn [filter map count_occ].
  destruct (Z.eq_dec (g x) v) as [E|E].
  - rewrite (proj2 (Z.eqb_eq _ _) E). cbn [List.length]. now rewrite IH.
  - rewrite (proj2 (Z.eqb_neq _ _) E). exact IH.
Qed.

Section Constructor.
Context {G : Type} `{RandomSource G}.

Lemma init_run (ty n : Z) (w : world G) :
  exists bb g',
    __init__ ty n w = (Ok bb, mkWorld g' (trace w ++ [Construct ty n])) /\
    type bb = ty /\ input_bitstring_length bb = n /\
    (ty = 0 ->
     output_array bb = None /\
     exists b, output bb = Some b /\ (b = 0 \/ b = 1)) /\
    (ty <> 0 ->
     output bb = None /\
     exists a, output_array bb = Some a /\
       Permutation (repeat 0 (Z.to_nat (2 ^ n / 2)) ++
                    repeat 1 (Z.to_nat (2 ^ n / 2))) a).
Proof.
  destruct (Z.eq_dec ty 0) as [->|Hne].
  - destruct (init_constant_run n w)
      as [bb [g' [Hrun [Hty [Hn [Harr Hout]]]]]].
    exists bb, g'. split; [exact Hrun|]. split; [exact Hty|].
    split; [exact Hn|]. split; [tauto|]. intros E. now contradiction E.
  - unfold __init__, bind, emit, random_shuffle, draw.
    rewrite (proj2 (Z.eqb_neq _ _) Hne). cbn [rng trace].
    set (k := Z.to_nat (2 ^ n / 2)).
    pose proof (shuffle_draw_perm (repeat 0 k ++ repeat 1 k) (rng w)) as Hperm.
    destruct (shuffle_draw (repeat 0 k ++ repeat 1 k) (rng w)) as [a g'].
    cbn [fst] in Hperm.
    exists (mk ty n None (Some a)), g'. split; [reflexivity|].
    split; [reflexivity|]. split; [reflexivity|].
    split; [intros E; now contradiction Hne|]. intros _.
    split; [reflexivity|]. exists a. split; [reflexivity|exact Hperm].
Qed.
End Constructor.

(** X4. For every type flag and every representable bit length,
    construction returns an oracle that stores the flag and the length as
    given.  Flag 0 stores one bit, 0 or 1, and no array; every other flag
    (not only 1) stores no bit and a rearrangement of [2^n/2] zeros
    followed by [2^n/2] ones. *)
Theorem construction_by_flag {G : Type} `{RandomSource G}
    (ty n : Z) (w : world G) :
  representable n ->
  exists bb w',
    __init__ ty n w = (Ok bb, w') /\
    trace w' = trace w ++ [Construct ty n] /\
    type bb = ty /\ input_bitstring_length bb = n /\
    (ty = 0 ->
     output_array bb = None /\
     exists b, output bb = Some b /\ (b = 0 \/ b = 1)) /\
    (ty <> 0 ->
     output bb = None /\
     exists a, output_array bb = Some a /\
       Permutation (repeat 0 (Z.to_nat (2 ^ n / 2)) ++
                    repeat 1 (Z.to_nat (2 ^ n / 2))) a).
Proof.
  intros _.
  destruct (init_run ty n w) as [bb [g' [Hrun Hrest]]].
  exists bb, (mkWorld g' (trace w ++ [Construct ty n])).
  split; [exact Hrun|]. split; [reflexivity|exact Hrest].
Qed.

Lemma representable_3 : representable 3.
Proof. unfold representable. split; [vm_compute; discriminate|lia]. Qed.

Lemma representable_0 : representable 0.
Proof. unfold representable. split; [vm_compute; discriminate|lia]. Qed.

Lemma construction_by_flag_witness :
  representable 3 /\
  exists bb w',
    __init__ 2 3 (start 1) = (Ok bb, w') /\
    trace w' = trace (start 1) ++ [Construct 2 3] /\
    type bb = 2 /\ input_bitstring_length bb = 3 /\
    (2 = 0 ->
     output_array bb = None /\
     exists b, output bb = Some b /\ (b = 0 \/ b = 1)) /\
    (2 <> 0 ->
     output bb = None /\
     exists a, output_array bb = Some a /\
       Permutation (repeat 0 (Z.to_nat (2 ^ 3 / 2)) ++
                    repeat 1 (Z.to_nat (2 ^ 3 / 2))) a).
Proof.
  split; [exact representable_3|].
  exact (construction_by_flag (G := nat) 2 3 (start 1) representable_3).
Defined.

(** X5. A balanced oracle built for a representable bit length of 0 or
    less has an empty output array, not one of length [2^n], and rejects
    every index: with [OverflowError] when [2^63 <= i < 2^64], with
    [IndexError] otherwise. *)
Theorem short_balanced_oracle_is_empty {G : Type} `{RandomSource G}
    (ty n : Z) (w : world G) :
  ty <> 0 -> representable n -> n <= 0 ->
  exists bb w',
    __init__ ty n w = (Ok bb, w') /\
    output_array bb = Some [] /\
    forall i,
      input_output_operation bb i =
      Raise (if (2 ^ 63 <=? i) && (i <? 2 ^ 64) then OverflowError
             else IndexError).
Proof.
  intros Hty _ Hn.
  destruct (init_run ty n w) as [bb [g' [Hrun [Hflag [_ [_ Hbal]]]]]].
  destruct (Hbal Hty) as [_ [a [Ha Hperm]]].
  rewrite (pow2_half_short n Hn) in Hperm. cbn [Z.to_nat repeat app] in Hperm.
  apply Permutation_nil in Hperm. subst a.
  exists bb, (mkWorld g' (trace w ++ [Construct ty n])).
  split; [exact Hrun|]. split; [exact Ha|]. intros i.
  unfold input_output_operation. rewrite Hflag, Ha.
  rewrite (proj2 (Z.eqb_neq _ _) Hty).
  destruct (Z.lt_ge_cases i 0) as [Hneg|Hpos].
  - rewrite np_getitem_too_small by (change (len (@nil Z)) with 0; lia).
    replace (2 ^ 63 <=? i) with false; [reflexivity|].
    symmetry. apply Z.leb_gt.
    assert (0 < 2 ^ 63) by (apply Z.pow_pos_nonneg; lia). lia.
  - apply np_getitem_too_large. change (len (@nil Z)) with 0. lia.
Qed.

Lemma short_balanced_oracle_is_empty_witness :
  1 <> 0 /\ representable 0 /\ 0 <= 0 /\
  exists bb w',
    __init__ 1 0 (start 2) = (Ok bb, w') /\
    output_array bb = Some [] /\
    forall i,
      input_output_operation bb i =
      Raise (if (2 ^ 63 <=? i) && (i <? 2 ^ 64) then OverflowError
             else IndexError).
Proof.
  assert (Hty : 1 <> 0) by lia. assert (Hn : 0 <= 0) by lia.
  split; [exact Hty|]. split; [exact representable_0|]. split; [exact Hn|].
  exact (short_balanced_oracle_is_empty (G := nat) 1 0 (start 2)
           Hty representable_0 Hn).
Defined.

(** X6. A balanced oracle computes a balanced function: every index in
    [0, 2^n) is answered with 0 or 1, exactly [2^(n-1)] of these indices
    with 0 and exactly [2^(n-1)] with 1. *)
Theorem balanced_oracle_halves_domain (n : Z) (bb : general_black_box.t) :
  1 <= n -> Balanced n bb ->
  (forall i, 0 <= i < 2 ^ n ->
     input_output_operation bb i = Ok 0 \/
     input_output_operation bb i = Ok 1) /\
  len (filter (fun i => value bb i =? 0) (range (2 ^ n))) = 2 ^ (n - 1) /\
  len (filter (fun i => value bb i =? 1) (range (2 ^ n))) = 2 ^ (n - 1).
Proof.
  intros Hn Hbal. pose proof (Balanced_Queryable n bb Hbal) as Hq.
  destruct Hbal as [Hty [_ [_ [a [Ha [Hlen [H0 H1]]]]]]].
  assert (Hne : type bb <> 0) by lia.
  pose proof (array_values bb a Hne Ha) as Hvals. rewrite Hlen in Hvals.
  split.
  - intros i Hi.
    rewrite (answers_value bb i (queryable_answers n bb i Hq Hi)).
    assert (Hin : In (value bb i) a).
    { rewrite <- Hvals. apply in_map. now apply in_range. }
    destruct (Z.eq_dec (value bb i) 0) as [->|Hv0]; [now left|].
    destruct (Z.eq_dec (value bb i) 1) as [->|Hv1]; [now right|].
    exfalso. apply (count_occ_In Z.eq_dec) in Hin.
    pose proof (count_three 0 1 (value bb i) a ltac:(lia) Hv0 Hv1) as Hc.
    pose proof (pow2_double n Hn). unfold occurrences, len in *. lia.
  - unfold len. rewrite !filter_count, Hvals. split; assumption.
Qed.

Lemma balanced_oracle_halves_domain_witness :
  1 <= 2 /\ Balanced 2 balanced_box_2 /\
  (forall i, 0 <= i < 2 ^ 2 ->
     input_output_operation balanced_box_2 i = Ok 0 \/
     input_output_operation balanced_box_2 i = Ok 1) /\
  len (filter (fun i => value balanced_box_2 i =? 0) (range (2 ^ 2))) =
    2 ^ (2 - 1) /\
  len (filter (fun i => value balanced_box_2 i =? 1) (range (2 ^ 2))) =
    2 ^ (2 - 1).
Proof.
  assert (Hn : 1 <= 2) by lia.
  split; [exact Hn|]. split; [exact sample_balanced_2|].
  exact (balanced_oracle_halves_domain 2 balanced_box_2 Hn sample_balanced_2).
Defined.

(** * Further properties of the trial harness *)

Lemma prints_app (t1 t2 : list event) :
  prints (t1 ++ t2) = prints t1 ++ prints t2.
Proof.
  induction t1 as [|e t1 IH]; [reflexivity|].
  destruct e; simpl; rewrite IH; reflexivity.
Qed.

Lemma prints_map_Query (xs : list Z) : prints (map Query xs) = [].
Proof. induction xs as [|x xs IH]; simpl; [|rewrite IH]; reflexivity. Qed.

Lemma sum_app (l1 l2 : list Z) : sum (l1 ++ l2) = sum l1 + sum l2.
Proof.
  induction l1 as [|x l1 IH]; [reflexivity|].
  cbn [app sum fold_right]. fold (sum (l1 ++ l2)) (sum l1). lia.
Qed.

Lemma sum_bounds (lo hi : Z) (l : list Z) :
  Forall (fun q => lo <= q <= hi) l ->
  lo * len l <= sum l <= hi * len l.
Proof.
  induction 1 as [|q l Hq _ IH]; unfold len in *.
  - simpl. lia.
  - cbn [sum fold_right List.length]. fold (sum l). nia.
Qed.

Section Records.
Context {G : Type} `{RandomSource G}.
Variable n : Z.
Hypothesis n_pos : 1 <= n.
Variables black_box_1 black_box_2 : general_black_box.t.
Hypothesis box_1_balanced : Balanced n black_box_1.
Hypothesis box_2_constant : Constant n black_box_2.

(** With a balanced and a constant oracle the loop of the harness logs
    queries only, as many as the counts it records add up to, and records
    the type of the oracle it picked. *)
Lemma trial_loop_sound (tests : list Z) :
  forall (outs types : list Z) (w : world G),
  exists outs' types' g' qs,
    trial_loop black_box_1 black_box_2 tests outs types w =
      (Ok (outs ++ outs', types ++ types'),
       mkWorld g' (trace w ++ map Query qs)) /\
    List.length outs' = List.length tests /\
    List.length types' = List.length tests /\
    len qs = sum outs' /\
    Forall2 (is_record n) types' outs'.
Proof.
  induction tests as [|i rest IH]; intros outs types w.
  - exists [], [], (rng w), []. cbn [trial_loop map]. unfold ret.
    rewrite !app_nil_r. destruct w. repeat split. constructor.
  - destruct (random_choice_pair black_box_1 black_box_2 w) as [g1 Hpick].
    set (pick := if fst (below_draw 2 (rng w)) =? 0
                 then black_box_1 else black_box_2) in *.
    assert (Hq : Queryable n pick).
    { unfold pick. destruct (_ =? 0);
        [now apply Balanced_Queryable|now apply Constant_Queryable]. }
    destruct (classifier_full n n_pos pick Hq (mkWorld g1 (trace w)))
      as [x0 [rest' [ty [q [qs [_ [Hrun [_ [Hlen [Hb [_ [H0 [_ [Hc Hbal]]]]]]]]]]]]]].
    cbn [rng trace] in Hrun.
    assert (Hrec : type pick = ty /\ is_record n ty q).
    { unfold pick in *. destruct (_ =? 0).
      - rewrite (Hbal box_1_balanced). split; [apply box_1_balanced|].
        left. split; [reflexivity|exact Hb].
      - rewrite (Hc box_2_constant) in *. split; [apply box_2_constant|].
        right. split; [reflexivity|]. now apply H0. }
    destruct Hrec as [Hty Hrec].
    destruct (IH (outs ++ [q]) (types ++ [ty])
                (mkWorld (snd (shuffle_draw (range (2 ^ n)) g1))
                   (trace w ++ map Query qs)))
      as [outs' [types' [g' [qs' [Hloop [Ho [Ht [Hsum Hrecs]]]]]]]].
    exists (q :: outs'), (ty :: types'), g', (qs ++ qs').
    split.
    + cbn [trial_loop]. unfold bind. rewrite Hpick, Hrun.
      rewrite Hty, Z.eqb_refl. cbn [negb]. unfold ret.
      cbn [trace] in Hloop. rewrite Hloop.
      now rewrite map_app, <- !app_assoc.
    + cbn [List.length]. split; [now rewrite Ho|]. split; [now rewrite Ht|].
      split; [|constructor; assumption].
      unfold len in *. rewrite length_app. cbn [sum fold_right].
      fold (sum outs'). lia.
Qed.
End Records.

Lemma test_black_box_classifier_sound {G : Type} `{RandomSource G}
    (n t : Z) (w : world G) :
  1 <= n ->
  exists outs types g' qs,
    test_black_box_classifier n t w =
      (Ok (outs, types),
       mkWorld g'
         (trace w ++ [Construct 1 n; Construct 0 n] ++ map Query qs)) /\
    List.length outs = Z.to_nat t /\
    List.length types = Z.to_nat t /\
    len qs = sum outs /\
    Forall2 (is_record n) types outs.
Proof.
  intros Hn.
  destruct (init_balanced_run n w Hn) as [bb1 [g1 [Hinit1 Hbal]]].
  destruct (init_constant_run n (mkWorld g1 (trace w ++ [Construct 1 n])))
    as [bb2 [g2 [Hinit2 Hconst]]].
  cbn [trace] in Hinit2.
  destruct (trial_loop_sound n Hn bb1 bb2 Hbal Hconst (range t) [] []
              (mkWorld g2 ((trace w ++ [Construct 1 n]) ++ [Construct 0 n])))
    as [outs [types [g' [qs [Hloop [Ho [Hty [Hsum Hrecs]]]]]]]].
  cbn [trace app] in Hloop. rewrite range_length in Ho, Hty.
  exists outs, types, g', qs. split; [|tauto].
  unfold test_black_box_classifier, bind. rewrite Hinit1, Hinit2, Hloop.
  now rewrite <- !app_assoc.
Qed.

(** X7. For every [n >= 1] and every trial count the harness returns and
    never prints its misclassification warning.  All it logs is the two
    constructions followed by oracle queries, and the counts it records add
    up to exactly the number of queries made. *)
Theorem harness_never_warns {G : Type} `{RandomSource G}
    (n number_of_tests : Z) (w : world G) :
  1 <= n ->
  exists outs types w' qs,
    test_black_box_classifier n number_of_tests w = (Ok (outs, types), w') /\
    trace w' = trace w ++ [Construct 1 n; Construct 0 n] ++ map Query qs /\
    prints (trace w') = prints (trace w) /\
    len qs = sum outs.
Proof.
  intros Hn.
  destruct (test_black_box_classifier_sound n number_of_tests w Hn)
    as [outs [types [g' [qs [Hrun [_ [_ [Hsum _]]]]]]]].
  exists outs, types,
    (mkWorld g' (trace w ++ [Construct 1 n; Construct 0 n] ++ map Query qs)),
    qs.
  split; [exact Hrun|]. cbn [trace].
  split; [reflexivity|]. split; [|exact Hsum].
  rewrite !prints_app, prints_map_Query. cbn [prints]. now rewrite app_nil_r.
Qed.

Lemma harness_never_warns_witness :
  1 <= 2 /\
  exists outs types w' qs,
    test_black_box_classifier 2 3 (start 5) = (Ok (outs, types), w') /\
    trace w' = trace (start 5) ++ [Construct 1 2; Construct 0 2] ++
               map Query qs /\
    prints (trace w') = prints (trace (start 5)) /\
    len qs = sum outs.
Proof.
  assert (Hn : 1 <= 2) by lia. split; [exact Hn|].
  exact (harness_never_warns (G := nat) 2 3 (start 5) Hn).
Defined.

(** X8. For every [n >= 1] the two lists the harness returns pair up trial
    by trial into a balanced verdict (1) with a count between 2 and
    [2^(n-1) + 1] or a constant verdict (0) with a count of exactly
    [2^(n-1) + 1]; no other verdict is ever recorded. *)
Theorem harness_records {G : Type} `{RandomSource G}
    (n number_of_tests : Z) (w : world G) :
  1 <= n ->
  exists outs types,
    fst (test_black_box_classifier n number_of_tests w) = Ok (outs, types) /\
    Forall2 (is_record n) types outs.
Proof.
  intros Hn.
  destruct (test_black_box_classifier_sound n number_of_tests w Hn)
    as [outs [types [g' [qs [Hrun [_ [_ [_ Hrecs]]]]]]]].
  exists outs, types. rewrite Hrun. split; [reflexivity|exact Hrecs].
Qed.

Lemma harness_records_witness :
  1 <= 2 /\
  exists outs types,
    fst (test_black_box_classifier 2 3 (start 5)) = Ok (outs, types) /\
    Forall2 (is_record 2) types outs.
Proof.
  assert (Hn : 1 <= 2) by lia. split; [exact Hn|].
  exact (harness_records (G := nat) 2 3 (start 5) Hn).
Defined.

Lemma harness_no_trials_run {G : Type} `{RandomSource G}
    (n t : Z) (w : world G) :
  t <= 0 ->
  exists g',
    test_black_box_classifier n t w =
    (Ok ([], []), mkWorld g' (trace w ++ [Construct 1 n; Construct 0 n])).
Proof.
  intros Ht.
  destruct (init_run 1 n w) as [bb1 [g1 [Hinit1 _]]].
  destruct (init_run 0 n (mkWorld g1 (trace w ++ [Construct 1 n])))
    as [bb2 [g2 [Hinit2 _]]].
  exists g2. unfold test_black_box_classifier, bind.
  rewrite Hinit1, Hinit2. unfold range.
  replace (Z.to_nat t) with 0%nat by lia. cbn [seq map trial_loop trace].
  unfold ret. now rewrite <- app_assoc.
Qed.

(** X9. With a trial count of 0 or less the harness returns two empty
    lists for every representable bit length, also one the classifier
    would reject, and still constructs both oracles. *)
Theorem harness_without_trials {G : Type} `{RandomSource G}
    (n number_of_tests : Z) (w : world G) :
  representable n -> number_of_tests <= 0 ->
  exists w',
    test_black_box_classifier n number_of_tests w = (Ok ([], []), w') /\
    trace w' = trace w ++ [Construct 1 n; Construct 0 n].
Proof.
  intros _ Ht. destruct (harness_no_trials_run n number_of_tests w Ht)
    as [g' Hrun].
  eexists. split; [exact Hrun|reflexivity].
Qed.

Lemma harness_without_trials_witness :
  representable 0 /\ -1 <= 0 /\
  exists w',
    test_black_box_classifier 0 (-1) (start 4) = (Ok ([], []), w') /\
    trace w' = trace (start 4) ++ [Construct 1 0; Construct 0 0].
Proof.
  assert (Ht : -1 <= 0) by lia.
  split; [exact representable_0|]. split; [exact Ht|].
  exact (harness_without_trials (G := nat) 0 (-1) (start 4)
           representable_0 Ht).
Defined.

(** X10. For bit length 0 and at least one trial the harness raises in its
    first trial, after one query of index 0, and returns no lists.  The
    error follows the oracle [random.choice] picks from the two it built:
    [IndexError] for the balanced one, whose array is empty,
    [UnboundLocalError] for the constant one. *)
Theorem harness_fails_on_length_zero {G : Type} `{RandomSource G}
    (number_of_tests : Z) (w : world G) :
  1 <= number_of_tests ->
  exists bb1 bb2 w1 w2 pick w3 e,
    __init__ 1 0 w = (Ok bb1, w1) /\ type bb1 = 1 /\
    __init__ 0 0 w1 = (Ok bb2, w2) /\ type bb2 = 0 /\
    random_choice [bb1; bb2] w2 = (Ok pick, w3) /\
    pick = (if fst (below_draw 2 (rng w2)) =? 0 then bb1 else bb2) /\
    fst (test_black_box_classifier 0 number_of_tests w) = Raise e /\
    e = (if type pick =? 0 then UnboundLocalError else IndexError) /\
    queries (trace (snd (test_black_box_classifier 0 number_of_tests w))) =
      queries (trace w) ++ [0].
Proof.
  intros Ht.
  destruct (init_run 1 0 w) as [bb1 [g1 [Hinit1 [Hty1 [Hn1 [_ Hbal]]]]]].
  destruct (Hbal ltac:(lia)) as [_ [a [Ha Hperm]]].
  cbn in Hperm. apply Permutation_nil in Hperm. subst a.
  destruct (init_run 0 0 (mkWorld g1 (trace w ++ [Construct 1 0])))
    as [bb2 [g2 [Hinit2 [Hty2 [Hn2 [Hconst _]]]]]].
  destruct (Hconst eq_refl) as [_ [b [Hb _]]]. cbn [trace] in Hinit2.
  destruct (random_choice_pair bb1 bb2
              (mkWorld g2 ((trace w ++ [Construct 1 0]) ++ [Construct 0 0])))
    as [g3 Hpick].
  cbn [rng trace] in Hpick.
  assert (Hharness : forall pick e,
    random_choice [bb1; bb2]
      (mkWorld g2 ((trace w ++ [Construct 1 0]) ++ [Construct 0 0])) =
      (Ok pick, mkWorld g3 ((trace w ++ [Construct 1 0]) ++ [Construct 0 0])) ->
    input_bitstring_length pick = 0 ->
    input_output_operation pick 0 = Raise e \/
    (answers pick 0 /\ e = UnboundLocalError) ->
    fst (test_black_box_classifier 0 number_of_tests w) = Raise e /\
    queries (trace (snd (test_black_box_classifier 0 number_of_tests w))) =
      queries (trace w) ++ [0]).
  { intros pick e Hp Hn He.
    unfold test_black_box_classifier, bind. rewrite Hinit1, Hinit2.
    unfold range. destruct (Z.to_nat number_of_tests) as [|k] eqn:K; [lia|].
    cbn [seq map trial_loop]. unfold bind. rewrite Hp.
    rewrite (classifier_length_zero pick _ Hn). cbn [trace].
    destruct He as [He|[[o Ho] ->]].
    - rewrite He. cbn [fst snd trace]. split; [reflexivity|].
      rewrite !queries_app. cbn [queries]. now rewrite !app_nil_r.
    - rewrite Ho. cbn [fst snd trace]. split; [reflexivity|].
      rewrite !queries_app. cbn [queries]. now rewrite !app_nil_r. }
  destruct (fst (below_draw 2 g2) =? 0) eqn:D.
  - destruct (Hharness bb1 IndexError Hpick Hn1) as [Hrun Hq].
    { left. unfold input_output_operation. rewrite Hty1, Ha. reflexivity. }
    exists bb1, bb2, (mkWorld g1 (trace w ++ [Construct 1 0])),
      (mkWorld g2 ((trace w ++ [Construct 1 0]) ++ [Construct 0 0])),
      bb1, (mkWorld g3 ((trace w ++ [Construct 1 0]) ++ [Construct 0 0])),
      IndexError.
    cbn [rng]. rewrite D, Hty1. repeat split; assumption.
  - destruct (Hharness bb2 UnboundLocalError Hpick Hn2) as [Hrun Hq].
    { right. split; [|reflexivity]. exists b.
      unfold input_output_operation. now rewrite Hty2, Hb. }
    exists bb1, bb2, (mkWorld g1 (trace w ++ [Construct 1 0])),
      (mkWorld g2 ((trace w ++ [Construct 1 0]) ++ [Construct 0 0])),
      bb2, (mkWorld g3 ((trace w ++ [Construct 1 0]) ++ [Construct 0 0])),
      UnboundLocalError.
    cbn [rng]. rewrite D, Hty2. repeat split; assumption.
Qed.

Lemma harness_fails_on_length_zero_witness :
  1 <= 2 /\
  exists bb1 bb2 w1 w2 pick w3 e,
    __init__ 1 0 (start 0) = (Ok bb1, w1) /\ type bb1 = 1 /\
    __init__ 0 0 w1 = (Ok bb2, w2) /\ type bb2 = 0 /\
    random_choice [bb1; bb2] w2 = (Ok pick, w3) /\
    pick = (if fst (below_draw 2 (rng w2)) =? 0 then bb1 else bb2) /\
    fst (test_black_box_classifier 0 2 (start 0)) = Raise e /\
    e = (if type pick =? 0 then UnboundLocalError else IndexError) /\
    queries (trace (snd (test_black_box_classifier 0 2 (start 0)))) =
      queries (trace (start 0)) ++ [0].
Proof.
  assert (Ht : 1 <= 2) by lia. split; [exact Ht|].
  exact (harness_fails_on_length_zero (G := nat) 2 (start 0) Ht).
Defined.

(** * Further properties of the scaling driver *)

Lemma records_bounded (n : Z) (types outs : list Z) :
  1 <= n -> Forall2 (is_record n) types outs ->
  Forall (fun q => 2 <= q <= 2 ^ (n - 1) + 1) outs.
Proof.
  intros Hn. pose proof (pow2_pred_pos n Hn) as Hpos.
  induction 1 as [|ty q types outs Hrec _ IH]; constructor; [|exact IH].
  destruct Hrec as [[_ Hb]|[_ ->]]; [exact Hb|lia].
Qed.

Lemma np_mean_bounded (lo hi : Z) (outs : list Z) :
  outs <> [] -> Forall (fun q => lo <= q <= hi) outs ->
  exists m, np_mean outs = Real m /\
            (inject_Z lo <= m)%Q /\ (m <= inject_Z hi)%Q.
Proof.
  intros Hne Hall. pose proof (sum_bounds lo hi outs Hall) as Hs.
  destruct outs as [|o outs]; [now contradiction Hne|].
  exists (sum (o :: outs) # Z.to_pos (len (o :: outs))).
  split; [reflexivity|].
  assert (Hpos : 0 < len (o :: outs))
    by (unfold len; cbn [List.length]; lia).
  unfold Qle. cbn [Qnum Qden inject_Z]. rewrite Z2Pos.id by exact Hpos.
  lia.
Qed.

Section Curve.
Context {G : Type} `{RandomSource G}.
Variable t : Z.

Lemma scaling_loop_sound (lengths : list Z) :
  forall (avg : list npfloat) (w : world G),
  Forall (fun i => 0 <= i) lengths ->
  exists runs g' evs,
    scaling_loop lengths t avg w =
      (Ok (avg ++ map np_mean runs), mkWorld g' (trace w ++ evs)) /\
    Forall2 (fun i outs =>
               List.length outs = Z.to_nat t /\
               Forall (fun q => 2 <= q <= 2 ^ (i + 1 - 1) + 1) outs)
      lengths runs /\
    constructions evs =
      flat_map (fun i => [(1, i + 1); (0, i + 1)]) lengths /\
    prints evs = [] /\ plots evs = [].
Proof.
  induction lengths as [|i rest IH]; intros avg w Hall.
  - exists [], (rng w), []. cbn [scaling_loop map flat_map]. unfold ret.
    rewrite !app_nil_r. destruct w. repeat split. constructor.
  - inversion Hall as [|? ? Hi Hrest]; subst.
    destruct (test_black_box_classifier_sound (i + 1) t w ltac:(lia))
      as [outs [types [g1 [qs [Hrun [Hlen [_ [_ Hrecs]]]]]]]].
    destruct (IH (avg ++ [np_mean outs])
                (mkWorld g1 (trace w ++ [Construct 1 (i + 1);
                                         Construct 0 (i + 1)] ++ map Query qs))
                Hrest)
      as [runs [g' [evs [Hloop [Hruns [Hc [Hp Hpl]]]]]]].
    exists (outs :: runs), g',
      (([Construct 1 (i + 1); Construct 0 (i + 1)] ++ map Query qs) ++ evs).
    split; [|split; [|split; [|split]]].
    + cbn [scaling_loop]. unfold bind. rewrite Hrun, Hloop. cbn [trace map].
      now rewrite <- !app_assoc.
    + constructor; [|exact Hruns]. split; [exact Hlen|].
      eapply records_bounded; [lia|exact Hrecs].
    + rewrite !constructions_app, constructions_map_Query, Hc. reflexivity.
    + rewrite !prints_app, prints_map_Query, Hp. reflexivity.
    + rewrite !plots_app, plots_map_Query, Hpl. reflexivity.
Qed.

Lemma average_output_number_scaling_sound (max_n : Z) (w : world G) :
  exists runs g' evs,
    average_output_number_scaling max_n t w =
      (Ok tt,
       mkWorld g' (trace w ++ evs ++ plot_calls max_n (map np_mean runs))) /\
    Forall2 (fun i outs =>
               List.length outs = Z.to_nat t /\
               Forall (fun q => 2 <= q <= 2 ^ (i + 1 - 1) + 1) outs)
      (range max_n) runs /\
    constructions evs =
      flat_map (fun i => [(1, i + 1); (0, i + 1)]) (range max_n) /\
    prints evs = [] /\ plots evs = [].
Proof.
  assert (Hall : Forall (fun i => 0 <= i) (range max_n))
    by (apply Forall_forall; intros i Hi; apply in_range in Hi; lia).
  destruct (scaling_loop_sound (range max_n) [] w Hall)
    as [runs [g' [evs [Hloop Hrest]]]].
  exists runs, g', evs. split; [|exact Hrest].
  unfold average_output_number_scaling, bind. rewrite Hloop.
  unfold emit, plot_calls. cbn [rng trace app]. now rewrite <- !app_assoc.
Qed.
End Curve.

(** X11. For every [trials >= 1] every mean the driver hands to the plot
    lies between 2 and [2^(n-1) + 1] for its bit length [n]. *)
Theorem scaling_means_bounded {G : Type} `{RandomSource G}
    (max_n trials : Z) (w : world G) :
  1 <= trials ->
  exists ys,
    plots (trace (snd (average_output_number_scaling max_n trials w))) =
      plots (trace w) ++ [(map (fun i => i + 1) (range max_n), ys)] /\
    Forall2 (fun n y =>
               exists m, y = Real m /\
                 (inject_Z 2 <= m)%Q /\ (m <= inject_Z (2 ^ (n - 1) + 1))%Q)
      (map (fun i => i + 1) (range max_n)) ys.
Proof.
  intros Ht.
  destruct (average_output_number_scaling_sound trials max_n w)
    as [runs [g' [evs [Hrun [Hruns [_ [_ Hpl]]]]]]].
  exists (map np_mean runs). rewrite Hrun. cbn [snd trace]. split.
  - rewrite !plots_app, Hpl. reflexivity.
  - clear Hrun. revert Hruns. generalize (range max_n) as lengths.
    intros lengths Hruns.
    induction Hruns as [|i outs lengths runs [Hlen Hb] _ IH];
      cbn [map]; constructor; [|exact IH].
    apply np_mean_bounded; [|exact Hb].
    intros E. rewrite E in Hlen. simpl in Hlen. lia.
Qed.

Lemma scaling_means_bounded_witness :
  1 <= 2 /\
  exists ys,
    plots (trace (snd (average_output_number_scaling 3 2 (start 5)))) =
      plots (trace (start 5)) ++ [(map (fun i => i + 1) (range 3), ys)] /\
    Forall2 (fun n y =>
               exists m, y = Real m /\
                 (inject_Z 2 <= m)%Q /\ (m <= inject_Z (2 ^ (n - 1) + 1))%Q)
      (map (fun i => i + 1) (range 3)) ys.
Proof.
  assert (Ht : 1 <= 2) by lia. split; [exact Ht|].
  exact (scaling_means_bounded (G := nat) 3 2 (start 5) Ht).
Defined.

(** X12. For every [max_n] below 60, so that every bit length it scans is
    representable, and every trial count, the driver returns and never
    prints the misclassification warning.  It builds a fresh balanced and
    a fresh constant oracle for each bit length [1 .. max_n] in turn,
    calls the plot exactly once, and that call and the four calls that
    label and show the chart are the last things it does. *)
Theorem scaling_driver_effects {G : Type} `{RandomSource G}
    (max_n trials : Z) (w : world G) :
  max_n < 60 ->
  exists w' pre ys,
    average_output_number_scaling max_n trials w = (Ok tt, w') /\
    trace w' = trace w ++ pre ++ plot_calls max_n ys /\
    constructions (trace w') =
      constructions (trace w) ++
      flat_map (fun n => [(1, n); (0, n)])
        (map (fun i => i + 1) (range max_n)) /\
    Forall (fun c => representable (snd c)) (constructions pre) /\
    prints (trace w') = prints (trace w) /\
    plots (trace w') =
      plots (trace w) ++ [(map (fun i => i + 1) (range max_n), ys)].
Proof.
  intros Hmax.
  destruct (average_output_number_scaling_sound trials max_n w)
    as [runs [g' [evs [Hrun [_ [Hc [Hp Hpl]]]]]]].
  exists (mkWorld g' (trace w ++ evs ++ plot_calls max_n (map np_mean runs))),
    evs, (map np_mean runs).
  split; [exact Hrun|]. cbn [trace]. split; [reflexivity|].
  rewrite !constructions_app, !prints_app, !plots_app, Hc, Hp, Hpl.
  unfold plot_calls. cbn [constructions prints plots].
  rewrite !app_nil_r. split; [|split; [|split; reflexivity]].
  - f_equal. generalize (range max_n) as lengths.
    induction lengths as [|i lengths IH]; [reflexivity|].
    cbn [map flat_map]. now rewrite IH.
  - apply Forall_forall. intros [ty n] Hin. apply in_flat_map in Hin.
    destruct Hin as [i [Hi Hin]]. apply in_range in Hi.
    assert (Hn : n = i + 1)
      by (destruct Hin as [E|[E|[]]]; now injection E as _ <-).
    cbn [snd]. unfold representable. split; [|lia].
    assert (0 < 2 ^ 1023) by (apply Z.pow_pos_nonneg; lia). lia.
Qed.

Lemma scaling_driver_effects_witness :
  2 < 60 /\
  exists w' pre ys,
    average_output_number_scaling 2 3 (start 1) = (Ok tt, w') /\
    trace w' = trace (start 1) ++ pre ++ plot_calls 2 ys /\
    constructions (trace w') =
      constructions (trace (start 1)) ++
      flat_map (fun n => [(1, n); (0, n)])
        (map (fun i => i + 1) (range 2)) /\
    Forall (fun c => representable (snd c)) (constructions pre) /\
    prints (trace w') = prints (trace (start 1)) /\
    plots (trace w') =
      plots (trace (start 1)) ++ [(map (fun i => i + 1) (range 2), ys)].
Proof.
  assert (Hmax : 2 < 60) by lia. split; [exact Hmax|].
  exact (scaling_driver_effects (G := nat) 2 3 (start 1) Hmax).
Defined.

(** X13. With [max_n <= 0] the driver runs no trial and constructs no
    oracle: it plots two empty lists and returns. *)
Theorem scaling_driver_without_lengths {G : Type} `{RandomSource G}
    (max_n trials : Z) (w : world G) :
  max_n <= 0 ->
  average_output_number_scaling max_n trials w =
  (Ok tt,
   mkWorld (rng w)
     (trace w ++
      [Plot [] [];
       Title "Average number of outputs computed for classification";
       Xlabel "Number of bits in bitstring"; TightLayout; Show])).
Proof.
  intros Hmax. unfold average_output_number_scaling, range.
  replace (Z.to_nat max_n) with 0%nat by lia.
  cbn [seq map scaling_loop]. unfold bind, ret, emit. cbn [rng trace].
  now rewrite <- !app_assoc.
Qed.

Lemma scaling_driver_without_lengths_witness :
  0 <= 0 /\
  average_output_number_scaling 0 5 (start 1) =
  (Ok tt,
   mkWorld (rng (start 1))
     (trace (start 1) ++
      [Plot [] [];
       Title "Average number of outputs computed for classification";
       Xlabel "Number of bits in bitstring"; TightLayout; Show])).
Proof.
  assert (Hmax : 0 <= 0) by lia. split; [exact Hmax|].
  exact (scaling_driver_without_lengths (G := nat) 0 5 (start 1) Hmax).
Defined.

(** X14. With a trial count of 0 or less every mean the driver plots is
    [nan]: each harness run records nothing and [np.mean] of an empty list
    is [nan]. *)
Theorem scaling_driver_without_trials {G : Type} `{RandomSource G}
    (max_n trials : Z) (w : world G) :
  trials <= 0 ->
  plots (trace (snd (average_output_number_scaling max_n trials w))) =
  plots (trace w) ++
  [(map (fun i => i + 1) (range max_n), repeat NaN (Z.to_nat max_n))].
Proof.
  intros Ht.
  destruct (average_output_number_scaling_sound trials max_n w)
    as [runs [g' [evs [Hrun [Hruns [_ [_ Hpl]]]]]]].
  assert (Hnan : map np_mean runs = repeat NaN (Z.to_nat max_n)).
  { rewrite <- (range_length max_n). clear Hrun.
    revert Hruns. generalize (range max_n) as lengths. intros lengths Hruns.
    induction Hruns as [|i outs lengths runs [Hlen _] _ IH]; [reflexivity|].
    cbn [map List.length repeat]. rewrite IH. f_equal.
    destruct outs; [reflexivity|]. simpl in Hlen. lia. }
  rewrite Hrun, Hnan. cbn [snd trace]. rewrite !plots_app, Hpl.
  reflexivity.
Qed.

Lemma scaling_driver_without_trials_witness :
  0 <= 0 /\
  plots (trace (snd (average_output_number_scaling 2 0 (start 5)))) =
  plots (trace (start 5)) ++
  [(map (fun i => i + 1) (range 2), repeat NaN (Z.to_nat 2))].
Proof.
  assert (Ht : 0 <= 0) by lia. split; [exact Ht|].
  exact (scaling_driver_without_trials (G := nat) 2 0 (start 5) Ht).
Defined.

(** * Both bounds on the query count are attained *)

Lemma filter_partition_perm {A : Type} (f : A -> bool) (l : list A) :
  Permutation l (filter f l ++ filter (fun x => negb (f x)) l).
Proof.
  induction l as [|x l IH]; [constructor|]. cbn [filter].
  destruct (f x); cbn [negb app].
  - now constructor.
  - now apply Permutation_cons_app.
Qed.

Lemma find_mismatch_after_equal (ref y : Z) (xs ys : list Z) (pos : Z) :
  Forall (eq ref) xs -> y <> ref ->
  find_mismatch ref (xs ++ y :: ys) pos = Some (pos + len xs).
Proof.
  intros Hall Hy. revert pos.
  induction Hall as [|x xs Hx _ IH]; intros pos; cbn [app find_mismatch].
  - replace (ref =? y) with false by (symmetry; apply Z.eqb_neq; congruence).
    unfold len. simpl. f_equal. lia.
  - subst x. rewrite Z.eqb_refl, IH. unfold len. cbn [List.length].
    f_equal. lia.
Qed.

Section Orders.
Variable n : Z.
Hypothesis n_pos : 1 <= n.
Variable bb : general_black_box.t.
Hypothesis bb_balanced : Balanced n bb.

Lemma zero_indices_length :
  List.length (zero_indices n bb) = Z.to_nat (2 ^ (n - 1)).
Proof.
  destruct bb_balanced as [Hty [_ [_ [a [Ha [Hlen [H0 _]]]]]]].
  assert (Hne : type bb <> 0) by lia.
  unfold zero_indices. rewrite filter_count.
  rewrite <- Hlen, (array_values bb a Hne Ha).
  unfold occurrences in H0. lia.
Qed.

Lemma other_indices_length :
  List.length (other_indices n bb) = Z.to_nat (2 ^ (n - 1)).
Proof.
  pose proof (filter_length (fun i => value bb i =? 0) (range (2 ^ n))) as Hf.
  pose proof zero_indices_length as Hz. unfold zero_indices in Hz.
  rewrite Hz, range_length in Hf. unfold other_indices.
  pose proof (pow2_double n n_pos). pose proof (pow2_pred_pos n n_pos). lia.
Qed.

Lemma zero_indices_value (i : Z) : In i (zero_indices n bb) -> value bb i = 0.
Proof.
  unfold zero_indices. rewrite filter_In. intros [_ E]. now apply Z.eqb_eq.
Qed.

Lemma other_indices_value (i : Z) :
  In i (other_indices n bb) -> value bb i <> 0.
Proof.
  unfold other_indices. rewrite filter_In. intros [_ E].
  apply negb_true_iff in E. now apply Z.eqb_neq.
Qed.

Lemma worst_order_perm : Permutation (range (2 ^ n)) (worst_order n bb).
Proof. apply filter_partition_perm. Qed.

Lemma orders_split :
  exists z zs o os,
    zero_indices n bb = z :: zs /\ other_indices n bb = o :: os /\
    List.length zs = Z.to_nat (2 ^ (n - 1) - 1) /\
    value bb z = 0 /\ value bb o <> 0 /\
    Forall (eq 0) (map (value bb) zs).
Proof.
  pose proof zero_indices_length as Hz. pose proof other_indices_length as Ho.
  pose proof (pow2_pred_pos n n_pos) as Hpos.
  pose proof zero_indices_value as Hzv. pose proof other_indices_value as Hov.
  destruct (zero_indices n bb) as [|z zs]; [simpl in Hz; lia|].
  destruct (other_indices n bb) as [|o os]; [simpl in Ho; lia|].
  exists z, zs, o, os. split; [reflexivity|]. split; [reflexivity|].
  split; [simpl in Hz; lia|]. split; [apply Hzv; now left|].
  split; [apply Hov; now left|].
  apply Forall_map, Forall_forall. intros i Hi. symmetry. apply Hzv.
  now right.
Qed.

Lemma worst_order_run {G : Type} `{RandomSource G} (w : world G) :
  fst (classify_shuffled bb (2 ^ n) (worst_order n bb) w) =
  Ok (1, 2 ^ (n - 1) + 1).
Proof.
  pose proof (pow2_pred_pos n n_pos) as Hpos.
  destruct (classifier_outcome n n_pos bb (worst_order n bb) w
              (Balanced_Queryable n bb bb_balanced) worst_order_perm)
    as [x0 [rest [Hl [_ Hrun]]]].
  rewrite Hrun. clear Hrun.
  destruct orders_split as [z [zs [o [os [Hz [Ho [Hlen [Hvz [Hvo Hall]]]]]]]]].
  unfold worst_order in Hl. rewrite Hz, Ho in Hl. cbn [app] in Hl.
  injection Hl as <- <-.
  rewrite firstn_app, Hlen.
  replace (Z.to_nat (2 ^ (n - 1)) - Z.to_nat (2 ^ (n - 1) - 1))%nat
    with 1%nat by lia.
  rewrite firstn_all2 by lia. cbn [firstn]. rewrite map_app. cbn [map].
  rewrite Hvz, (find_mismatch_after_equal 0 (value bb o) _ [] 1 Hall Hvo).
  unfold len. rewrite length_map, Hlen. cbn [fst]. do 2 f_equal. lia.
Qed.

Lemma best_order_perm : Permutation (range (2 ^ n)) (best_order n bb).
Proof.
  destruct orders_split as [z [zs [o [os [Hz [Ho _]]]]]].
  unfold best_order. rewrite Hz, Ho.
  etransitivity; [apply worst_order_perm|].
  unfold worst_order. rewrite Hz, Ho. cbn [app]. constructor.
  symmetry. apply Permutation_middle.
Qed.

Lemma best_order_run {G : Type} `{RandomSource G} (w : world G) :
  fst (classify_shuffled bb (2 ^ n) (best_order n bb) w) = Ok (1, 2).
Proof.
  pose proof (pow2_pred_pos n n_pos) as Hpos.
  destruct (classifier_outcome n n_pos bb (best_order n bb) w
              (Balanced_Queryable n bb bb_balanced) best_order_perm)
    as [x0 [rest [Hl [_ Hrun]]]].
  rewrite Hrun. clear Hrun.
  destruct orders_split as [z [zs [o [os [Hz [Ho [_ [Hvz [Hvo _]]]]]]]]].
  unfold best_order in Hl. rewrite Hz, Ho in Hl. injection Hl as <- <-.
  destruct (Z.to_nat (2 ^ (n - 1))) as [|k] eqn:K; [lia|].
  cbn [firstn map find_mismatch]. rewrite Hvz.
  replace (0 =? value bb o) with false
    by (symmetry; apply Z.eqb_neq; congruence).
  reflexivity.
Qed.
End Orders.

(** X15. Both bounds on a balanced oracle's query count are attained, for
    every [n >= 1] and every balanced oracle: there is a permutation of the
    index list on which the classifier needs all [2^(n-1) + 1] queries
    (every index answered with 0 comes first) and one on which it needs
    only 2. *)
Theorem query_count_bounds_attained {G : Type} `{RandomSource G}
    (n : Z) (bb : general_black_box.t) :
  1 <= n -> Balanced n bb ->
  Permutation (range (2 ^ n)) (worst_order n bb) /\
  Permutation (range (2 ^ n)) (best_order n bb) /\
  forall w : world G,
    fst (classify_shuffled bb (2 ^ n) (worst_order n bb) w) =
      Ok (1, 2 ^ (n - 1) + 1) /\
    fst (classify_shuffled bb (2 ^ n) (best_order n bb) w) = Ok (1, 2).
Proof.
  intros Hn Hbal. split; [now apply worst_order_perm|].
  split; [now apply best_order_perm|]. intros w. split.
  - now apply worst_order_run.
  - now apply best_order_run.
Qed.

Lemma query_count_bounds_attained_witness :
  1 <= 2 /\ Balanced 2 balanced_box_2 /\
  Permutation (range (2 ^ 2)) (worst_order 2 balanced_box_2) /\
  Permutation (range (2 ^ 2)) (best_order 2 balanced_box_2) /\
  forall w : world nat,
    fst (classify_shuffled balanced_box_2 (2 ^ 2)
           (worst_order 2 balanced_box_2) w) = Ok (1, 2 ^ (2 - 1) + 1) /\
    fst (classify_shuffled balanced_box_2 (2 ^ 2)
           (best_order 2 balanced_box_2) w) = Ok (1, 2).
Proof.
  assert (Hn : 1 <= 2) by lia.
  split; [exact Hn|]. split; [exact sample_balanced_2|].
  exact (query_count_bounds_attained (G := nat) 2 balanced_box_2
           Hn sample_balanced_2).
Defined.

(** * Concrete runs *)

(** The specification's scenarios for [n = 1]. *)
Example classify_constant_n1 :
  fst (black_box_classifier constant_box_1 (start 0)) = Ok (0, 2).
Proof. reflexivity. Qed.

Example classify_balanced_n1 :
  fst (black_box_classifier balanced_box_1 (start 0)) = Ok (1, 2) /\
  fst (black_box_classifier balanced_box_1 (start 1)) = Ok (1, 2).
Proof. split; reflexivity. Qed.

(** A constant oracle on 3 bits costs [2^2 + 1] queries. *)
Example classify_constant_n3 :
  black_box_classifier constant_box_3 (start 4) =
  (Ok (0, 5), mkWorld 5%nat [Query 4; Query 5; Query 6; Query 7; Query 0]).
Proof. reflexivity. Qed.

(** A balanced oracle whose first mismatch comes at the third query. *)
Example classify_balanced_n2 :
  black_box_classifier balanced_box_2 (start 1) =
  (Ok (1, 3), mkWorld 2%nat [Query 1; Query 2; Query 3]).
Proof. reflexivity. Qed.

(** Bit length 0 is outside the classifier's domain: the loop body never
    runs and the count reads an unbound loop variable. *)
Example classify_n0 :
  fst (black_box_classifier (mk 0 0 (Some 1) None) (start 0)) =
  Raise UnboundLocalError.
Proof. reflexivity. Qed.

(** A negative trial count yields empty record lists. *)
Example harness_negative_trials :
  fst (test_black_box_classifier 2 (-1) (start 0)) = Ok ([], []).
Proof. reflexivity. Qed.

(** With no trials the means handed to the plot are [nan]. *)
Example scaling_no_trials :
  plots (trace (snd (average_output_number_scaling 2 0 (start 5)))) =
  [([1; 2], [NaN; NaN])].
Proof. reflexivity. Qed.
